(** * bbtt: order management and FIFO session accounting

    A shallow embedding of the trading-state core of the repository:

    - [throttle]   : [src/utils/throttle.py], the process-wide sliding-window
                     call limiter;
    - [sessionacc] : [src/accounting/sessionacc.py], FIFO matching of fills
                     into realised PnL, peak, drawdown and win rate;
    - [oms]        : [src/oms/oms.py], the order/position state engine and
                     its throttled order operations.

    Conventions of the embedding.

    - A Python [float] is an exact rational ([Q]); comparisons are the
      boolean ones of [QArith].  Rounding of binary64 arithmetic is outside
      the model; every counterexample below uses values on which binary64
      arithmetic is exact.
    - A Python [int] is a [Z].
    - A decoded JSON message is a typed record: the fields the handlers read
      are present and already converted ([float(...)], [int(...)]).
    - A [dict] keyed by strings is a [gmap string _].
    - [time()] reads a clock.  The clock is a function from the number of
      reads made so far to the value read, so each call of [time()] advances
      the read counter by one.
    - An exception is a value of [exn]; a method that can raise returns the
      state it leaves behind together with the exception, if any. *)

From Stdlib Require Import QArith ZArith Lia Lqa Sorted.
From stdpp Require Import gmap strings list pretty.

(** ** Python built-ins used by the sources *)

Inductive exn : Type :=
| KeyError
| ZeroDivisionError
| ConnectionError (msg : string).

(** [min(a, b)]: the first argument unless the second is strictly smaller. *)
Definition py_min (a b : Q) : Q := if Qle_bool a b then a else b.

(** [max(a, b)]: the first argument unless the second is strictly larger. *)
Definition py_max (a b : Q) : Q := if Qle_bool b a then a else b.

(** [a / b] on two ints: true division, [ZeroDivisionError] when [b] is 0. *)
Definition py_truediv (a b : Z) : exn + Q :=
  if (b =? 0)%Z then inl ZeroDivisionError
  else inr (inject_Z a / inject_Z b)%Q.

(** [sorted(l, key=key)]: a stable sort by an integer key.  Each element is
    inserted in front of the first element whose key is not smaller, so
    elements with equal keys keep the order of the input. *)
Section Sorted.
Context {A : Type} (key : A -> Z).

Fixpoint insert_by (x : A) (l : list A) : list A :=
  match l with
  | [] => [x]
  | y :: l' => if (key x <=? key y)%Z then x :: y :: l' else y :: insert_by x l'
  end.

Definition sorted (l : list A) : list A := foldr insert_by [] l.
End Sorted.

(** ** [src/accounting/sessionacc.py] *)

Module sessionacc.

Local Open Scope Q_scope.

(** One element of [msg["data"]] on the fast execution stream. *)
Record execution := {
  symbol : string;
  category : string;
  side : string;
  execPrice : Q;
  execQty : Q;
  isMaker : bool;
  execTime : Z
}.

(** A decoded message: a topic with its data, an acknowledgement carrying
    [success], or anything else (a pong). *)
Inductive message :=
| Topic (topic : string) (data : list execution)
| Ack (success : bool)
| Other.

(** The dict appended to [_buys] or [_sells]. *)
Record fill := {
  price : Q;
  qty : Q;
  fill_isMaker : bool
}.

Record SessionAcc := {
  _symbol : string;
  _category : string;
  _maker : Q;
  _taker : Q;
  _buys : list fill;
  _sells : list fill;
  _wins : Z;
  _n_matched : Z;
  _topic : string;
  _pnl : Q;
  _max_pnl : Q;
  _drawdown : Q
}.

(** [SessionAcc.__init__] *)
Definition init (symbol category : string) (maker taker : Q) : SessionAcc := {|
  _symbol := symbol;
  _category := category;
  _maker := maker;
  _taker := taker;
  _buys := [];
  _sells := [];
  _wins := 0;
  _n_matched := 0;
  _topic := "execution.fast." +:+ category;
  _pnl := 0;
  _max_pnl := 0;
  _drawdown := 0
|}.

(** The accessors [pnl], [max_pnl], [drawdown]. *)
Definition pnl (self : SessionAcc) : Q := _pnl self.
Definition max_pnl (self : SessionAcc) : Q := _max_pnl self.
Definition drawdown (self : SessionAcc) : Q := _drawdown self.

(** [win_rate]: [self._wins/self._n_matched], [None] on
    [ZeroDivisionError]. *)
Definition win_rate (self : SessionAcc) : option Q :=
  match py_truediv (_wins self) (_n_matched self) with
  | inr r => Some r
  | inl _ => None
  end.

(** [e["symbol"] == self._symbol and e["category"] == self._category] *)
Definition relevant (self : SessionAcc) (e : execution) : bool :=
  String.eqb (symbol e) (_symbol self) &&
  String.eqb (category e) (_category self).

Definition fill_of (e : execution) : fill :=
  {| price := execPrice e; qty := execQty e; fill_isMaker := isMaker e |}.

Definition set_queues (self : SessionAcc) (buys sells : list fill) : SessionAcc := {|
  _symbol := _symbol self;
  _category := _category self;
  _maker := _maker self;
  _taker := _taker self;
  _buys := buys;
  _sells := sells;
  _wins := _wins self;
  _n_matched := _n_matched self;
  _topic := _topic self;
  _pnl := _pnl self;
  _max_pnl := _max_pnl self;
  _drawdown := _drawdown self
|}.

(** One iteration of [for e in data]: append to [_buys] when the side is
    ["Buy"], to [_sells] otherwise. *)
Definition append_fill (self : SessionAcc) (e : execution) : SessionAcc :=
  if String.eqb (side e) "Buy"
  then set_queues self (_buys self ++ [fill_of e]) (_sells self)
  else set_queues self (_buys self) (_sells self ++ [fill_of e]).

(** The fee of one side: [v*self._maker if isMaker else v*self._taker]. *)
Definition fee (self : SessionAcc) (v : Q) (maker : bool) : Q :=
  if maker then v * _maker self else v * _taker self.

(** [net_profit] of the heads [b] and [s] for the matched quantity [Qm], the
    source's [Q]. *)
Definition net_profit (self : SessionAcc) (b s : fill) (Qm : Q) : Q :=
  let vb := Qm * price b in
  let vs := Qm * price s in
  let cb := fee self vb (fill_isMaker b) in
  let cs := fee self vs (fill_isMaker s) in
  vs - vb - cb - cs.

(** [q["qty"] -= Q] on the head, then [del] when the quantity is 0. *)
Definition consume (f : fill) (rest : list fill) (Qm : Q) : list fill :=
  let q := qty f - Qm in
  if Qeq_bool q 0 then rest
  else {| price := price f; qty := q; fill_isMaker := fill_isMaker f |} :: rest.

(** The body of [while self._buys and self._sells]; [None] when the loop
    condition is false. *)
Definition match_once (self : SessionAcc) : option SessionAcc :=
  match _buys self, _sells self with
  | b :: bs, s :: ss =>
      let n_matched := (_n_matched self + 1)%Z in
      let Qm := py_min (qty b) (qty s) in
      let net := net_profit self b s Qm in
      let pnl := _pnl self + net in
      let wins := if Qle_bool 0 net then (_wins self + 1)%Z else _wins self in
      let max_pnl := py_max (_max_pnl self) pnl in
      Some {|
        _symbol := _symbol self;
        _category := _category self;
        _maker := _maker self;
        _taker := _taker self;
        _buys := consume b bs Qm;
        _sells := consume s ss Qm;
        _wins := wins;
        _n_matched := n_matched;
        _topic := _topic self;
        _pnl := pnl;
        _max_pnl := max_pnl;
        _drawdown := py_max (_drawdown self) (max_pnl - pnl)
      |}
  | _, _ => None
  end.

(** The [while] loop, run for at most [fuel] iterations. *)
Fixpoint match_loop (fuel : nat) (self : SessionAcc) : SessionAcc :=
  match fuel with
  | O => self
  | S fuel' =>
      match match_once self with
      | Some self' => match_loop fuel' self'
      | None => self
      end
  end.

(** Every iteration deletes at least one head ([match_once_measure]), so
    the loop runs at most once per queued fill. *)
Definition measure (self : SessionAcc) : nat :=
  length (_buys self) + length (_sells self).

Definition match_all (self : SessionAcc) : SessionAcc :=
  match_loop (measure self) self.

(** The [try] body once the guard holds: sort the relevant executions by
    [execTime], append them, then match. *)
Definition process (self : SessionAcc) (data : list execution) : SessionAcc :=
  let data := sorted execTime (List.filter (relevant self) data) in
  match_all (fold_left append_fill data self).

(** [SessionAcc._on_exec_message]: the state left behind and the exception
    raised, if any.  A message without ["topic"] takes the [KeyError]
    branch, which raises when ["success"] is present and false. *)
Definition _on_exec_message (self : SessionAcc) (msg : message)
  : SessionAcc * option exn :=
  match msg with
  | Topic topic data =>
      if String.eqb topic (_topic self) && existsb (relevant self) data
      then (process self data, None)
      else (self, None)
  | Ack success =>
      if success then (self, None)
      else (self, Some (ConnectionError (_topic self +:+ " websocket not connected.")))
  | Other => (self, None)
  end.

(** Delivery of a sequence of execution batches on the subscribed topic. *)
Definition deliver (self : SessionAcc) (batches : list (list execution)) : SessionAcc :=
  fold_left (fun s data => fst (_on_exec_message s (Topic (_topic s) data))) batches self.

(** Every queued fill has a positive remaining quantity. *)
Definition positive (l : list fill) : Prop := Forall (fun f => 0 < qty f) l.

(** The state between two batches: the loop condition is false and the
    queues hold positive quantities only. *)
Definition settled (self : SessionAcc) : Prop :=
  (_buys self = [] \/ _sells self = []) /\
  positive (_buys self) /\ positive (_sells self).

(** The configuration read by the guard of [_on_exec_message]. *)
Definition config (self : SessionAcc) : string * string * string :=
  (_symbol self, _category self, _topic self).

(** The three session metrics the accessors report. *)
Definition metrics (self : SessionAcc) : Q * Q * option Q :=
  (pnl self, drawdown self, win_rate self).

(** Batches arrive in execution-time order: no fill of a batch is earlier
    than a fill of a batch delivered before it. *)
Fixpoint in_time_order (batches : list (list execution)) : Prop :=
  match batches with
  | [] => True
  | data :: rest =>
      Forall (fun e => Forall (fun e' => (execTime e <= execTime e')%Z)
                         (concat rest)) data /\
      in_time_order rest
  end.

(** The net profit of a full match in the words of the specification:
    [feeRate(true)] is the maker rate, [feeRate(false)] the taker rate. *)
Definition feeRate (self : SessionAcc) (maker : bool) : Q :=
  if maker then _maker self else _taker self.

Definition spec_net_profit (self : SessionAcc) (pb ps Qm : Q) (mb ms : bool) : Q :=
  Qm * ps - Qm * pb - Qm * pb * feeRate self mb - Qm * ps * feeRate self ms.

(** Maker rate 0, taker rate 0.001; one unit bought at 100 as maker and one
    unit sold at 110 as taker are queued. *)
Definition scenario_state : SessionAcc :=
  set_queues (init "ADAUSDT" "linear" 0 (1 # 1000))
    [{| price := 100; qty := 1; fill_isMaker := true |}]
    [{| price := 110; qty := 1; fill_isMaker := false |}].

(** Three fills of one symbol with distinct execution times, fee rates 0. *)
Definition fill_event (side : string) (price qty : Q) (time : Z) : execution :=
  {| symbol := "ADAUSDT"; category := "linear"; side := side;
     execPrice := price; execQty := qty; isMaker := false; execTime := time |}.

Definition first_buy : execution := fill_event "Buy" 100 1 1.
Definition second_buy : execution := fill_event "Buy" 200 1 2.
Definition the_sell : execution := fill_event "Sell" 150 1 3.

Definition presorted : list execution := [first_buy; second_buy; the_sell].

(** The second buy is delivered before the first. *)
Definition late_delivery : list (list execution) :=
  [[second_buy]; [the_sell; first_buy]].

(** The same fills, split into batches in time order. *)
Definition timely_delivery : list (list execution) :=
  [[first_buy]; [the_sell; second_buy]].

Definition fresh_engine : SessionAcc := init "ADAUSDT" "linear" 0 0.

(** The peak is at least the PnL and at least 0, and the drawdown covers the
    distance from the peak. *)
Definition peaked (self : SessionAcc) : Prop :=
  _pnl self <= _max_pnl self /\ 0 <= _max_pnl self /\
  _max_pnl self - _pnl self <= _drawdown self /\ 0 <= _drawdown self.

(** A queued sell of one unit at 110 facing a buy of quantity zero. *)
Definition zero_fill_state : SessionAcc :=
  set_queues (init "ADAUSDT" "linear" 0 (1 # 1000))
    [{| price := 100; qty := 0; fill_isMaker := true |}]
    [{| price := 110; qty := 1; fill_isMaker := false |}].

(** A buy of two units at 100 facing a sell of one unit at 110. *)
Definition partial_state : SessionAcc :=
  set_queues (init "ADAUSDT" "linear" 0 (1 # 1000))
    [{| price := 100; qty := 2; fill_isMaker := true |}]
    [{| price := 110; qty := 1; fill_isMaker := false |}].

(** Two buys with the same execution time: [first_buy] at 100 and another at
    200, the second delivered first. *)
Definition tied_buy : execution := fill_event "Buy" 200 1 1.

Definition tied_delivery : list (list execution) :=
  [[tied_buy]; [the_sell; first_buy]].

(** The same three fills listed in another order that is also sorted by
    execution time. *)
Definition tied_presorted : list execution := [first_buy; tied_buy; the_sell].

End sessionacc.

(** ** Process-wide state

    The state shared by every object of the process: the number of clock
    reads made so far, [throttle._calls] and the global [oms.API_RATE]. *)

Record world := {
  reads : nat;
  _calls : list Q;
  API_RATE : Z
}.

Definition set_reads (w : world) (n : nat) : world :=
  {| reads := n; _calls := _calls w; API_RATE := API_RATE w |}.

Definition set_calls (w : world) (calls : list Q) : world :=
  {| reads := reads w; _calls := calls; API_RATE := API_RATE w |}.

Definition set_API_RATE (w : world) (rate : Z) : world :=
  {| reads := reads w; _calls := _calls w; API_RATE := rate |}.

(** [int(x)] on a float: truncation toward zero. *)
Definition py_int (x : Q) : Z := Z.quot (Qnum x) (Z.pos (Qden x)).

(** ** [src/utils/throttle.py] *)

Module throttle.

Local Open Scope Q_scope.

Section Clock.
Variable clock : nat -> Q.

(** [time()] *)
Definition time (w : world) : Q * world :=
  (clock (reads w), set_reads w (S (reads w))).

(** [[t for t in calls if time()-t <= 1]], started at read number [n]:
    one clock read per element, in list order.  Returns the kept
    timestamps and the next read number. *)
Fixpoint prune_from (calls : list Q) (n : nat) : list Q * nat :=
  match calls with
  | [] => ([], n)
  | t :: rest =>
      let now := clock n in
      let '(kept, n') := prune_from rest (S n) in
      (if Qle_bool (now - t) 1 then t :: kept else kept, n')
  end.

(** [_calls = [t for t in _calls if time()-t <= 1]] *)
Definition prune (w : world) : world :=
  let '(kept, n) := prune_from (_calls w) (reads w) in
  set_calls (set_reads w n) kept.

(** [len(_calls) >= rate] *)
Definition blocked (rate : Z) (w : world) : bool :=
  (rate <=? Z.of_nat (length (_calls w)))%Z.

(** [while len(_calls) >= rate: _calls = [...]], for at most [fuel]
    iterations; [None] when the loop is still blocked after them. *)
Fixpoint wait (fuel : nat) (rate : Z) (w : world) : option world :=
  if blocked rate w then
    match fuel with
    | O => None
    | S fuel' => wait fuel' rate (prune w)
    end
  else Some w.

(** [_calls.append(time())] *)
Definition record_call (w : world) : world :=
  let '(now, w') := time w in
  set_calls w' (_calls w' ++ [now]).

(** [throttle(rate)(func)]: the wrapper.  [func] acts on the world and on
    the state [S] of its arguments; when it raises, the exception
    propagates and no timestamp is recorded. *)
Definition throttle {S : Type} (rate : Z)
    (func : world * S -> (world * S) * option exn)
    (fuel : nat) (ws : world * S) : option ((world * S) * option exn) :=
  match wait fuel rate (prune (fst ws)) with
  | None => None
  | Some w =>
      let '((w', s'), e) := func (w, snd ws) in
      match e with
      | Some _ => Some ((w', s'), e)
      | None => Some ((record_call w', s'), None)
      end
  end.

(** A throttled call whose function only takes time: it makes [d] clock
    reads and returns. *)
Definition call (rate : Z) (d : nat) (fuel : nat) (w : world) : option world :=
  match throttle rate (fun ws : world * unit =>
                         ((set_reads (fst ws) (d + reads (fst ws)), tt), None))
                 fuel (w, tt) with
  | Some ((w', _), _) => Some w'
  | None => None
  end.
End Clock.

(** The clock never runs backwards. *)
Definition monotone (clock : nat -> Q) : Prop :=
  forall n m, (n <= m)%nat -> clock n <= clock m.

(** The clock passes every instant. *)
Definition unbounded (clock : nat -> Q) : Prop :=
  forall T : Q, exists n, T < clock n.

(** [t] lies in the trailing 1-second window of read number [m]. *)
Definition in_window (clock : nat -> Q) (m : nat) (t : Q) : bool :=
  Qle_bool (clock m - t) 1.

(** Some timestamp of [l] is more than a second older than read [r]. *)
Definition expired (clock : nat -> Q) (r : nat) (l : list Q) : Prop :=
  Exists (fun t => t + 1 < clock r) l.

(** A clock that advances by a tenth of a second at every read. *)
Definition tenth_clock (n : nat) : Q := Z.of_nat n # 10.

(** Four throttled calls back to back at rate 3, from an empty window. *)
Definition start : world := {| reads := 0; _calls := []; API_RATE := 10 |}.

Definition after (n : nat) : world :=
  Nat.iter n (fun w => default w (call tenth_clock 3 0 2 w)) start.

(** Throttled calls one after the other, one per element of [ds] (the clock
    reads made by its function, the fuel of its wait): the worlds left by the
    calls, in order; [None] when one of them is still blocked. *)
Fixpoint calls_in_a_row (clock : nat -> Q) (rate : Z) (ds : list (nat * nat))
    (w : world) : option (list world) :=
  match ds with
  | [] => Some []
  | (d, fuel) :: ds' =>
      match call clock rate d fuel w with
      | None => None
      | Some w1 =>
          match calls_in_a_row clock rate ds' w1 with
          | None => None
          | Some ws => Some (w1 :: ws)
          end
      end
  end.

(** The value of the last clock read made in [w]. *)
Definition stamp (clock : nat -> Q) (w : world) : Q := clock (pred (reads w)).

End throttle.

(** ** [src/oms/oms.py] *)

Module oms.

Local Open Scope Q_scope.

(** One element of [msg["data"]] on the order stream. *)
Record order := {
  symbol : string;
  category : string;
  orderLinkId : string;
  orderId : string;
  orderStatus : string;
  leavesQty : Q;
  updatedTime : Z
}.

(** One element of [msg["data"]] on the fast execution stream. *)
Record execution := {
  e_symbol : string;
  e_category : string;
  side : string;
  execQty : Q;
  execTime : Z
}.

Inductive message (A : Type) :=
| Topic (topic : string) (data : list A)
| Ack (success : bool)
| Other.
Arguments Topic {A} _ _.
Arguments Ack {A} _.
Arguments Other {A}.

(** A dict of order parameters ([**kwargs], and the [args] sent to the
    venue): the two keys the methods read, typed, and every other key. *)
Record params := {
  p_orderLinkId : option string;
  p_qty : option Q;
  p_fields : gmap string string
}.

(** The dict handed to [dumps] and sent on a channel. *)
Record request := {
  X_BAPI_TIMESTAMP : string;
  X_BAPI_RECV_WINDOW : string;
  op : string;
  args : list params
}.

(** An [Oms] object.  A [WebSocketApp] is the list of requests sent on it;
    worker threads, URLs and the handshake of [connect] are left out. *)
Record Oms := {
  _symbol : string;
  _category : string;
  _position_event : bool;
  _websockets : gmap string (list request);
  _flag : bool;
  _uuid : string;
  _order_link_id_n : Z;
  _order_status : gmap string string;
  _active_orders : gmap string order;
  _position : Q;
  _side : option string;
  _fe : string
}.

Definition set_position_event (self : Oms) (b : bool) : Oms :=
  {| _symbol := _symbol self; _category := _category self;
     _position_event := b; _websockets := _websockets self;
     _flag := _flag self; _uuid := _uuid self;
     _order_link_id_n := _order_link_id_n self;
     _order_status := _order_status self;
     _active_orders := _active_orders self;
     _position := _position self; _side := _side self; _fe := _fe self |}.

Definition set_websockets (self : Oms) (m : gmap string (list request)) : Oms :=
  {| _symbol := _symbol self; _category := _category self;
     _position_event := _position_event self; _websockets := m;
     _flag := _flag self; _uuid := _uuid self;
     _order_link_id_n := _order_link_id_n self;
     _order_status := _order_status self;
     _active_orders := _active_orders self;
     _position := _position self; _side := _side self; _fe := _fe self |}.

Definition set_order_link_id_n (self : Oms) (n : Z) : Oms :=
  {| _symbol := _symbol self; _category := _category self;
     _position_event := _position_event self; _websockets := _websockets self;
     _flag := _flag self; _uuid := _uuid self;
     _order_link_id_n := n;
     _order_status := _order_status self;
     _active_orders := _active_orders self;
     _position := _position self; _side := _side self; _fe := _fe self |}.

Definition set_order_status (self : Oms) (m : gmap string string) : Oms :=
  {| _symbol := _symbol self; _category := _category self;
     _position_event := _position_event self; _websockets := _websockets self;
     _flag := _flag self; _uuid := _uuid self;
     _order_link_id_n := _order_link_id_n self;
     _order_status := m;
     _active_orders := _active_orders self;
     _position := _position self; _side := _side self; _fe := _fe self |}.

Definition set_active_orders (self : Oms) (m : gmap string order) : Oms :=
  {| _symbol := _symbol self; _category := _category self;
     _position_event := _position_event self; _websockets := _websockets self;
     _flag := _flag self; _uuid := _uuid self;
     _order_link_id_n := _order_link_id_n self;
     _order_status := _order_status self;
     _active_orders := m;
     _position := _position self; _side := _side self; _fe := _fe self |}.

Definition set_position (self : Oms) (p : Q) (s : option string) : Oms :=
  {| _symbol := _symbol self; _category := _category self;
     _position_event := _position_event self; _websockets := _websockets self;
     _flag := _flag self; _uuid := _uuid self;
     _order_link_id_n := _order_link_id_n self;
     _order_status := _order_status self;
     _active_orders := _active_orders self;
     _position := p; _side := s; _fe := _fe self |}.

(** [Oms.__init__]: assigns the global [API_RATE], then builds the object.
    [uuid] stands for the ten characters derived from [uuid4()]. *)
Definition init (symbol category : string) (api_rate : Z) (uuid : string)
    (w : world) : world * Oms :=
  (set_API_RATE w api_rate,
   {| _symbol := symbol; _category := category;
      _position_event := false; _websockets := ∅;
      _flag := true; _uuid := uuid;
      _order_link_id_n := 0;
      _order_status := ∅;
      _active_orders := ∅;
      _position := 0; _side := None;
      _fe := "execution.fast." +:+ category |}).

(** [o["symbol"] == self._symbol and o["category"] == self._category] *)
Definition relevant (self : Oms) (o : order) : bool :=
  String.eqb (symbol o) (_symbol self) &&
  String.eqb (category o) (_category self).

(** One iteration of [for o in data] of the order handler. *)
Definition apply_order (self : Oms) (o : order) : Oms :=
  let self := set_order_status self
                (<[orderLinkId o := orderStatus o]> (_order_status self)) in
  if negb (Qeq_bool (leavesQty o) 0)
  then set_active_orders self (<[orderLinkId o := o]> (_active_orders self))
  else set_active_orders self (delete (orderLinkId o) (_active_orders self)).

(** [Oms._on_order_message] *)
Definition _on_order_message (self : Oms) (msg : message order)
  : Oms * option exn :=
  match msg with
  | Topic topic data =>
      if String.eqb topic "order" then
        if existsb (relevant self) data then
          let data := sorted updatedTime (List.filter (relevant self) data) in
          (fold_left apply_order data self, None)
        else (self, None)
      else (self, None)
  | Ack success =>
      if success then (self, None)
      else (self, Some (ConnectionError "order websocket not connected."))
  | Other => (self, None)
  end.

Definition e_relevant (self : Oms) (e : execution) : bool :=
  String.eqb (e_symbol e) (_symbol self) &&
  String.eqb (e_category e) (_category self).

(** One iteration of [for e in data] of the execution handler. *)
Definition apply_execution (self : Oms) (e : execution) : Oms :=
  set_position self
    (_position self + (if String.eqb (side e) "Buy" then execQty e else - execQty e))
    (_side self).

(** [Oms._on_exec_message], run without interruption: the event is set on
    entry and cleared on exit. *)
Definition _on_exec_message (self : Oms) (msg : message execution)
  : Oms * option exn :=
  match msg with
  | Topic topic data =>
      if String.eqb topic (_fe self) && existsb (e_relevant self) data then
        let self := set_position_event self true in
        let data := sorted execTime (List.filter (e_relevant self) data) in
        let self := fold_left apply_execution data self in
        let self := set_position self (_position self) (side <$> last data) in
        (set_position_event self false, None)
      else (self, None)
  | Ack success =>
      if success then (self, None)
      else (self, Some (ConnectionError (_fe self +:+ " websocket not connected.")))
  | Other => (self, None)
  end.

(** [self._websockets[name].send(dumps(r))]; [None] is the [KeyError] of
    the lookup. *)
Definition send (self : Oms) (name : string) (r : request) : option Oms :=
  match _websockets self !! name with
  | Some sent => Some (set_websockets self (<[name := sent ++ [r]]> (_websockets self)))
  | None => None
  end.

(** The requests sent so far on the trade channel. *)
Definition transmitted (self : Oms) : list request :=
  default [] (_websockets self !! "trade").

Section Clock.
Variable clock : nat -> Q.

(** [str(int(time()*1000))] *)
Definition timestamp (w : world) : string * world :=
  let '(now, w') := throttle.time clock w in
  (pretty (py_int (now * 1000)), w').

(** The body of [connect]: three channels, nothing sent yet. *)
Definition connect_body (ws : world * Oms) : (world * Oms) * option exn :=
  let '(w, self) := ws in
  let m := <["trade" := []]> (<[_fe self := []]> (<["order" := []]> (_websockets self))) in
  ((w, set_websockets self m), None).

(** The dict [args] of [create_order] and [amend_order]:
    [{"symbol": ..., "category": ...}] updated with [kwargs]. *)
Definition merge_args (self : Oms) (kwargs : params) : params :=
  {| p_orderLinkId := p_orderLinkId kwargs;
     p_qty := p_qty kwargs;
     p_fields := p_fields kwargs ∪
                 <["category" := _category self]> {["symbol" := _symbol self]} |}.

Definition with_link (a : params) (link : string) : params :=
  {| p_orderLinkId := Some link; p_qty := p_qty a; p_fields := p_fields a |}.

Definition set_status (self : Oms) (link status : string) : Oms :=
  set_order_status self (<[link := status]> (_order_status self)).

(** The body of [create_order]. *)
Definition create_order_body (kwargs : params) (ws : world * Oms)
  : (world * Oms) * option exn :=
  let '(w, self) := ws in
  let args := merge_args self kwargs in
  let '(link, self) :=
    match p_orderLinkId args with
    | Some link => (link, self)
    | None =>
        (_uuid self +:+ "-" +:+ pretty (_order_link_id_n self),
         set_order_link_id_n self (_order_link_id_n self + 1)%Z)
    end in
  let args := with_link args link in
  let self := set_status self link "" in
  if negb (_position_event self) then
    let '(ts, w) := timestamp w in
    let order := {| X_BAPI_TIMESTAMP := ts; X_BAPI_RECV_WINDOW := "8000";
                    op := "order.create"; args := [args] |} in
    match send self "trade" order with
    | None => ((w, self), Some KeyError)
    | Some self =>
        match p_qty args with
        | None => ((w, self), Some KeyError)
        | Some q =>
            if Qeq_bool q 0
            then ((w, set_status self link "Unsubmitted"), None)
            else ((w, self), None)
        end
    end
  else ((w, set_status self link "Unsubmitted"), None).

(** The body of [amend_order]. *)
Definition amend_order_body (kwargs : params) (ws : world * Oms)
  : (world * Oms) * option exn :=
  let '(w, self) := ws in
  let args := merge_args self kwargs in
  let '(ts, w) := timestamp w in
  let order := {| X_BAPI_TIMESTAMP := ts; X_BAPI_RECV_WINDOW := "8000";
                  op := "order.amend"; args := [args] |} in
  match send self "trade" order with
  | None => ((w, self), Some KeyError)
  | Some self =>
      match p_qty args with
      | None => ((w, self), Some KeyError)
      | Some q =>
          if Qeq_bool q 0 then
            match p_orderLinkId args with
            | None => ((w, self), Some KeyError)
            | Some link => ((w, set_status self link "Unsubmitted"), None)
            end
          else ((w, self), None)
      end
  end.

(** The [args] of a cancel request. *)
Definition cancel_args (orderId : string) : params :=
  {| p_orderLinkId := None; p_qty := None;
     p_fields := <["orderId" := orderId]>
                   (<["symbol" := "ADAUSDT"]> {["category" := "linear"]}) |}.

(** The body of [cancel_order]: both lookups sit in the [try], so a
    [KeyError] of either is swallowed. *)
Definition cancel_order_body (order_link_id : string) (ws : world * Oms)
  : (world * Oms) * option exn :=
  let '(w, self) := ws in
  match _active_orders self !! order_link_id with
  | None => ((w, self), None)
  | Some o =>
      let '(ts, w) := timestamp w in
      let order := {| X_BAPI_TIMESTAMP := ts; X_BAPI_RECV_WINDOW := "8000";
                      op := "order.cancel"; args := [cancel_args (orderId o)] |} in
      match send self "trade" order with
      | None => ((w, self), None)
      | Some self => ((w, self), None)
      end
  end.

(** The class statement.  Each [@throttle(rate=API_RATE)] is evaluated
    when the class body runs, so the wrapper closes over the value the
    global has at that moment, [rate_at_class]. *)
Record Oms_methods := {
  m_connect : nat -> world * Oms -> option ((world * Oms) * option exn);
  m_create_order : params -> nat -> world * Oms -> option ((world * Oms) * option exn);
  m_amend_order : params -> nat -> world * Oms -> option ((world * Oms) * option exn);
  m_cancel_order : string -> nat -> world * Oms -> option ((world * Oms) * option exn)
}.

Definition class_body (rate_at_class : Z) : Oms_methods :=
  {| m_connect := throttle.throttle clock rate_at_class connect_body;
     m_create_order := fun kwargs =>
       throttle.throttle clock rate_at_class (create_order_body kwargs);
     m_amend_order := fun kwargs =>
       throttle.throttle clock rate_at_class (amend_order_body kwargs);
     m_cancel_order := fun order_link_id =>
       throttle.throttle clock rate_at_class (cancel_order_body order_link_id) |}.
End Clock.

(** The module body of [oms.py], in order: [API_RATE: int = 10], then the
    class statement. *)
Definition module_API_RATE : Z := 10.

Definition Oms_class (clock : nat -> Q) : Oms_methods :=
  class_body clock module_API_RATE.

Definition connect clock := m_connect (Oms_class clock).
Definition create_order clock := m_create_order (Oms_class clock).
Definition amend_order clock := m_amend_order (Oms_class clock).
Definition cancel_order clock := m_cancel_order (Oms_class clock).

(** [order_status]: a plain subscript of [_order_status]. *)
Definition order_status (self : Oms) (order_link_id : string) : exn + string :=
  match _order_status self !! order_link_id with
  | Some status => inr status
  | None => inl KeyError
  end.

(** [remove_status]: [self._order_status.pop(order_link_id, None)] *)
Definition remove_status (self : Oms) (order_link_id : string) : Oms :=
  set_order_status self (delete order_link_id (_order_status self)).

(** Two updates of one order: first partially open, then fully filled. *)
Definition update (status : string) (leaves : Q) (time : Z) : order :=
  {| symbol := "BTCUSDT"; category := "linear"; orderLinkId := "UUID1234";
     orderId := "venue-1"; orderStatus := status; leavesQty := leaves;
     updatedTime := time |}.

Definition opened : order := update "New" (1 # 5) 1.
Definition filled : order := update "Filled" 0 2.

(** A fresh engine for BTCUSDT, as left by [init]. *)
Definition fresh : Oms := snd (init "BTCUSDT" "linear" 10 "abcdefghij"
                                 {| reads := 0; _calls := []; API_RATE := 10 |}).

(** The link-id [create_order] works with: the caller's, or the next one of
    the engine's own sequence. *)
Definition link_of (self : Oms) (kwargs : params) : string :=
  match p_orderLinkId kwargs with
  | Some link => link
  | None => _uuid self +:+ "-" +:+ pretty (_order_link_id_n self)
  end.

(** The create request for [kwargs] with timestamp [ts]. *)
Definition create_request (self : Oms) (kwargs : params) (ts : string) : request :=
  {| X_BAPI_TIMESTAMP := ts; X_BAPI_RECV_WINDOW := "8000";
     op := "order.create";
     args := [with_link (merge_args self kwargs) (link_of self kwargs)] |}.

(** The cancel request for a venue order id with timestamp [ts]. *)
Definition cancel_request (orderId ts : string) : request :=
  {| X_BAPI_TIMESTAMP := ts; X_BAPI_RECV_WINDOW := "8000";
     op := "order.cancel"; args := [cancel_args orderId] |}.

(** A clock that advances by one second at every read. *)
Definition tick_clock (n : nat) : Q := inject_Z (Z.of_nat n).

(** The process right after import. *)
Definition boot : world := {| reads := 0; _calls := []; API_RATE := 10 |}.

(** [fresh] after the body of [connect]: the three channels are open. *)
Definition connected : Oms := snd (fst (connect_body (boot, fresh))).

(** [connected] after the order stream has reported [opened]. *)
Definition tracking : Oms :=
  fst (_on_order_message connected (Topic "order" [opened])).

(** A create with quantity zero. *)
Definition zero_order : params :=
  {| p_orderLinkId := Some "UUID1234"; p_qty := Some 0;
     p_fields := {["side" := "Buy"]} |}.

(** The global [API_RATE] set to [r] in the outcome of a call. *)
Definition rerate (r : Z) (res : (world * Oms) * option exn)
  : (world * Oms) * option exn :=
  ((set_API_RATE (fst (fst res)) r, snd (fst res)), snd res).

Definition set_flag (self : Oms) (b : bool) : Oms :=
  {| _symbol := _symbol self; _category := _category self;
     _position_event := _position_event self; _websockets := _websockets self;
     _flag := b; _uuid := _uuid self;
     _order_link_id_n := _order_link_id_n self;
     _order_status := _order_status self;
     _active_orders := _active_orders self;
     _position := _position self; _side := _side self; _fe := _fe self |}.

(** [kill]: the flag read by the keepalive loops is cleared, every channel
    is closed (errors swallowed) and the channel dict is emptied. *)
Definition kill (self : Oms) : Oms :=
  set_websockets (set_flag self false) ∅.

(** [reconnect]: [kill()], a pause, then the throttled [connect()]. *)
Definition reconnect (clock : nat -> Q) (fuel : nat) (ws : world * Oms)
  : option ((world * Oms) * option exn) :=
  connect clock fuel (fst ws, kill (snd ws)).

(** [cancel_all]: one throttled [cancel_order] per link-id of [keys], which
    stands for [list(self._active_orders.keys())].  The order of a dict's
    keys is its insertion order, which the [gmap] does not record, so the
    list is an argument. *)
Fixpoint cancel_all (clock : nat -> Q) (keys : list string) (fuel : nat)
    (ws : world * Oms) : option ((world * Oms) * option exn) :=
  match keys with
  | [] => Some (ws, None)
  | order_link_id :: keys' =>
      match cancel_order clock order_link_id fuel ws with
      | None => None
      | Some (ws', Some e) => Some (ws', Some e)
      | Some (ws', None) => cancel_all clock keys' fuel ws'
      end
  end.

(** The amend request for [kwargs] with timestamp [ts]. *)
Definition amend_request (self : Oms) (kwargs : params) (ts : string) : request :=
  {| X_BAPI_TIMESTAMP := ts; X_BAPI_RECV_WINDOW := "8000";
     op := "order.amend"; args := [merge_args self kwargs] |}.

(** What the caller, the two streams and the supervisor can do to an
    engine. *)
Inductive operation :=
| OrderMessage (msg : message order)
| ExecMessage (msg : message execution)
| CreateOrder (kwargs : params)
| AmendOrder (kwargs : params)
| CancelOrder (order_link_id : string)
| RemoveStatus (order_link_id : string)
| Connect
| Kill.

(** One operation, with the fuel of its throttle; [None] when it is still
    blocked.  An exception raised by the operation is dropped here: the
    state it leaves behind is the state the next operation finds. *)
Definition perform (clock : nat -> Q) (fuel : nat) (o : operation)
    (ws : world * Oms) : option (world * Oms) :=
  match o with
  | OrderMessage msg => Some (fst ws, fst (_on_order_message (snd ws) msg))
  | ExecMessage msg => Some (fst ws, fst (_on_exec_message (snd ws) msg))
  | CreateOrder kwargs => fst <$> create_order clock kwargs fuel ws
  | AmendOrder kwargs => fst <$> amend_order clock kwargs fuel ws
  | CancelOrder order_link_id => fst <$> cancel_order clock order_link_id fuel ws
  | RemoveStatus order_link_id => Some (fst ws, remove_status (snd ws) order_link_id)
  | Connect => fst <$> connect clock fuel ws
  | Kill => Some (fst ws, kill (snd ws))
  end.

Fixpoint perform_all (clock : nat -> Q) (ops : list (nat * operation))
    (ws : world * Oms) : option (world * Oms) :=
  match ops with
  | [] => Some ws
  | (fuel, o) :: ops' =>
      match perform clock fuel o ws with
      | None => None
      | Some ws' => perform_all clock ops' ws'
      end
  end.

(** Every entry of the active set sits under its own link-id, belongs to the
    tracked symbol and category and has a leaves-quantity other than 0. *)
Definition well_keyed (self : Oms) : Prop :=
  forall link o,
    _active_orders self !! link = Some o ->
    orderLinkId o = link /\ relevant self o = true /\
    Qeq_bool (leavesQty o) 0 = false.

(** The fields no throttled operation writes. *)
Definition untouched (self self' : Oms) : Prop :=
  _symbol self' = _symbol self /\ _category self' = _category self /\
  _uuid self' = _uuid self /\ _fe self' = _fe self /\
  _flag self' = _flag self /\ _position_event self' = _position_event self /\
  _active_orders self' = _active_orders self /\
  _position self' = _position self /\ _side self' = _side self.

(** A session: connect, a create, the venue's report, a cancel, a kill and
    a second connect. *)
Definition session : list (nat * operation) :=
  [(0%nat, Connect);
   (0%nat, CreateOrder zero_order);
   (0%nat, OrderMessage (Topic "order" [opened]));
   (0%nat, CancelOrder "UUID1234");
   (0%nat, Kill);
   (0%nat, Connect)].

(** A create that leaves the link-id to the engine. *)
Definition anonymous_order : params :=
  {| p_orderLinkId := None; p_qty := Some 1; p_fields := {["side" := "Buy"]} |}.

(** An execution of the tracked symbol. *)
Definition bought (qty : Q) (time : Z) : execution :=
  {| e_symbol := "BTCUSDT"; e_category := "linear"; side := "Buy";
     execQty := qty; execTime := time |}.

Definition sold (qty : Q) (time : Z) : execution :=
  {| e_symbol := "BTCUSDT"; e_category := "linear"; side := "Sell";
     execQty := qty; execTime := time |}.

(** Delivery of a sequence of batches on the order stream. *)
Definition deliver_orders (self : Oms) (batches : list (list order)) : Oms :=
  fold_left (fun s data => fst (_on_order_message s (Topic "order" data)))
    batches self.

(** Batches arrive in update-time order: no update of a batch is older than
    an update of a batch delivered before it. *)
Fixpoint in_update_order (batches : list (list order)) : Prop :=
  match batches with
  | [] => True
  | data :: rest =>
      Forall (fun o => Forall (fun o' => (updatedTime o <= updatedTime o')%Z)
                         (concat rest)) data /\
      in_update_order rest
  end.

(** The four methods decorated with [@throttle(rate=API_RATE)]. *)
Inductive method :=
| MConnect
| MCreateOrder (kwargs : params)
| MAmendOrder (kwargs : params)
| MCancelOrder (order_link_id : string).

(** A call of a decorated method. *)
Definition invoke (clock : nat -> Q) (m : method) (fuel : nat)
    (ws : world * Oms) : option ((world * Oms) * option exn) :=
  match m with
  | MConnect => connect clock fuel ws
  | MCreateOrder kwargs => create_order clock kwargs fuel ws
  | MAmendOrder kwargs => amend_order clock kwargs fuel ws
  | MCancelOrder order_link_id => cancel_order clock order_link_id fuel ws
  end.

(** Calls of decorated methods one after the other, each with the fuel of
    its wait: the states the calls leave, in order; [None] when one of them
    is still blocked or raises. *)
Fixpoint invoke_all (clock : nat -> Q) (ms : list (nat * method))
    (ws : world * Oms) : option (list (world * Oms)) :=
  match ms with
  | [] => Some []
  | (fuel, m) :: ms' =>
      match invoke clock m fuel ws with
      | Some (ws', None) =>
          match invoke_all clock ms' ws' with
          | Some states => Some (ws' :: states)
          | None => None
          end
      | _ => None
      end
  end.

(** A clock that advances by a millisecond at every read. *)
Definition milli_clock (n : nat) : Q := Z.of_nat n # 1000.

(** An engine constructed with [api_rate=1], and eleven cancels in a row. *)
Definition slow_engine : world * Oms :=
  init "BTCUSDT" "linear" 1 "abcdefghij" boot.

Definition eleven_cancels : list (nat * method) :=
  replicate 11 (120%nat, MCancelOrder "UUID0000").

Definition eleven_states : list (world * Oms) :=
  default [] (invoke_all milli_clock eleven_cancels slow_engine).

End oms.

(** * Properties *)

(** ** Built-ins *)

Lemma Qle_bool_false (a b : Q) : Qle_bool a b = false -> (b < a)%Q.
Proof.
  intros H. destruct (Qlt_le_dec b a) as [|Hle]; [done|].
  apply Qle_bool_iff in Hle. congruence.
Qed.

Lemma py_min_cases (a b : Q) :
  (py_min a b = a /\ (a <= b)%Q) \/ (py_min a b = b /\ (b < a)%Q).
Proof.
  unfold py_min. destruct (Qle_bool a b) eqn:E.
  - left. split; [done|]. by apply Qle_bool_iff.
  - right. split; [done|]. by apply Qle_bool_false.
Qed.

Lemma py_min_same (a : Q) : py_min a a = a.
Proof. unfold py_min. by destruct (Qle_bool a a). Qed.

Lemma filter_Forall {A : Type} (P : A -> Prop) (f : A -> bool) (l : list A) :
  Forall P l -> Forall P (List.filter f l).
Proof.
  induction 1 as [|x l Hx Hl IH]; simpl; [constructor|].
  destruct (f x); [by constructor|done].
Qed.

Section SortedFacts.
Context {A : Type} (key : A -> Z).

Lemma insert_by_Forall (P : A -> Prop) x l :
  P x -> Forall P l -> Forall P (insert_by key x l).
Proof.
  intros Hx. induction 1 as [|y l Hy Hl IH]; simpl.
  - by constructor.
  - destruct (key x <=? key y)%Z; repeat constructor; done.
Qed.

Lemma sorted_Forall (P : A -> Prop) l :
  Forall P l -> Forall P (sorted key l).
Proof.
  induction 1 as [|x l Hx Hl IH]; simpl; [constructor|].
  by apply insert_by_Forall.
Qed.

Lemma length_insert_by x l : length (insert_by key x l) = S (length l).
Proof.
  induction l as [|y l IH]; simpl; [done|].
  destruct (key x <=? key y)%Z; simpl; by rewrite ?IH.
Qed.

(** Inserting in front of a suffix whose keys are all at least the new
    key only touches the prefix. *)
Lemma insert_by_app x l1 l2 :
  Forall (fun y => (key x <= key y)%Z) l2 ->
  l1 <> [] ->
  insert_by key x (l1 ++ l2) = insert_by key x l1 ++ l2.
Proof.
  intros H2. induction l1 as [|y l1 IH]; [done|]. intros _. simpl.
  destruct (key x <=? key y)%Z eqn:E; [done|].
  rewrite <- app_comm_cons. f_equal.
  destruct l1 as [|z l1]; [|by apply IH].
  simpl. destruct H2 as [|y2 l2 Hy2 Hl2]; [done|].
  simpl. by apply Z.leb_le in Hy2 as ->.
Qed.

Lemma insert_by_front x l :
  Forall (fun y => (key x <= key y)%Z) l ->
  insert_by key x l = x :: l.
Proof.
  destruct 1 as [|y l Hy Hl]; simpl; [done|].
  by apply Z.leb_le in Hy as ->.
Qed.

(** Sorting a concatenation whose first part never comes later than its
    second part sorts the two parts separately. *)
Lemma sorted_app l1 l2 :
  Forall (fun x => Forall (fun y => (key x <= key y)%Z) l2) l1 ->
  sorted key (l1 ++ l2) = sorted key l1 ++ sorted key l2.
Proof.
  induction 1 as [|x l1 Hx Hl IH]; simpl; [done|].
  fold (sorted key (l1 ++ l2)) (sorted key l1). rewrite IH.
  assert (Hx' : Forall (fun y => (key x <= key y)%Z) (sorted key l2))
    by by apply sorted_Forall.
  destruct (sorted key l1) as [|z l] eqn:E.
  - simpl. by apply insert_by_front.
  - by apply insert_by_app.
Qed.

Lemma insert_by_sorted x l :
  StronglySorted (fun a b => (key a <= key b)%Z) l ->
  StronglySorted (fun a b => (key a <= key b)%Z) (insert_by key x l).
Proof.
  induction 1 as [|y l Hl IH Hy]; simpl.
  - repeat constructor.
  - destruct (key x <=? key y)%Z eqn:E.
    + apply Z.leb_le in E. constructor; [by constructor|].
      constructor; [done|]. eapply Forall_impl; [exact Hy|]. simpl. lia.
    + apply Z.leb_gt in E. constructor; [done|].
      apply insert_by_Forall; [lia|done].
Qed.

Lemma sorted_sorted l :
  StronglySorted (fun a b => (key a <= key b)%Z) (sorted key l).
Proof.
  induction l as [|x l IH]; simpl; [constructor|]. by apply insert_by_sorted.
Qed.

Lemma sorted_id l :
  StronglySorted (fun a b => (key a <= key b)%Z) l -> sorted key l = l.
Proof.
  induction 1 as [|x l Hl IH Hx]; simpl; [done|].
  fold (sorted key l). rewrite IH. by apply insert_by_front.
Qed.

Lemma filter_insert_by (f : A -> bool) x l :
  StronglySorted (fun a b => (key a <= key b)%Z) l ->
  List.filter f (insert_by key x l)
  = if f x then insert_by key x (List.filter f l) else List.filter f l.
Proof.
  induction 1 as [|y l Hl IH Hy]; simpl.
  - by destruct (f x).
  - destruct (key x <=? key y)%Z eqn:E; simpl.
    + destruct (f x) eqn:Ex; [|done]. destruct (f y) eqn:Ey; simpl.
      * by rewrite E.
      * symmetry. apply insert_by_front. apply filter_Forall.
        eapply Forall_impl; [exact Hy|]. simpl. apply Z.leb_le in E. lia.
    + rewrite IH. destruct (f y) eqn:Ey, (f x) eqn:Ex; simpl; by rewrite ?E.
Qed.

(** The sort is stable, so it commutes with a filter. *)
Lemma filter_sorted (f : A -> bool) l :
  List.filter f (sorted key l) = sorted key (List.filter f l).
Proof.
  induction l as [|x l IH]; simpl; [done|]. fold (sorted key l).
  rewrite filter_insert_by by apply sorted_sorted. rewrite IH.
  by destruct (f x).
Qed.

Lemma sorted_filter_sorted (f : A -> bool) l :
  sorted key (List.filter f (sorted key l)) = sorted key (List.filter f l).
Proof. rewrite filter_sorted. apply sorted_id, sorted_sorted. Qed.
End SortedFacts.

(** ** FIFO accounting *)

Module sessionacc_facts.
Import sessionacc.
Local Open Scope Q_scope.

Lemma match_once_None (self : SessionAcc) :
  match_once self = None <-> _buys self = [] \/ _sells self = [].
Proof.
  unfold match_once.
  destruct (_buys self) as [|b bs], (_sells self) as [|s ss];
    (split; [intros E|intros [E|E]]); try discriminate; auto.
Qed.

Lemma consume_all f rest Qm : Qm = qty f -> consume f rest Qm = rest.
Proof.
  intros ->. unfold consume.
  rewrite (proj2 (Qeq_bool_iff (qty f - qty f) 0)); [done|lra].
Qed.

Lemma length_consume f rest Qm : (length (consume f rest Qm) <= S (length rest))%nat.
Proof. unfold consume. destruct (Qeq_bool _ _); simpl; lia. Qed.

(** Every iteration of the matching loop deletes at least one head. *)
Lemma match_once_measure self self' :
  match_once self = Some self' -> (measure self' < measure self)%nat.
Proof.
  unfold match_once, measure.
  destruct (_buys self) as [|b bs]; [done|].
  destruct (_sells self) as [|s ss]; [done|].
  intros [= <-]. simpl.
  pose proof (length_consume b bs (py_min (qty b) (qty s))).
  pose proof (length_consume s ss (py_min (qty b) (qty s))).
  destruct (py_min_cases (qty b) (qty s)) as [[E _]|[E _]].
  - rewrite (consume_all b) in * by done. lia.
  - rewrite (consume_all s) in * by done. lia.
Qed.

Lemma match_loop_terminal fuel self :
  (measure self <= fuel)%nat -> match_once (match_loop fuel self) = None.
Proof.
  revert self. induction fuel as [|fuel IH]; intros self Hm; simpl.
  - apply match_once_None. unfold measure in Hm.
    destruct (_buys self); [by left|simpl in Hm; lia].
  - destruct (match_once self) as [self'|] eqn:E; [|done].
    apply IH. apply match_once_measure in E. lia.
Qed.

(** The [while] loop of [_on_exec_message] terminates: after
    [measure self] iterations its condition is false. *)
Lemma match_all_terminal self : match_once (match_all self) = None.
Proof. by apply match_loop_terminal. Qed.

Lemma match_loop_done fuel self :
  match_once self = None -> match_loop fuel self = self.
Proof. destruct fuel; simpl; [done|]. by intros ->. Qed.

Lemma match_all_done self : match_once self = None -> match_all self = self.
Proof. apply match_loop_done. Qed.

(** Fuel beyond [measure self] changes nothing. *)
Lemma match_loop_stable n self :
  (measure self <= n)%nat ->
  forall m, (n <= m)%nat -> match_loop m self = match_loop n self.
Proof.
  revert self. induction n as [|n IH]; intros self Hm m Hnm.
  - simpl. apply match_loop_done, match_once_None. unfold measure in Hm.
    destruct (_buys self); [by left|simpl in Hm; lia].
  - destruct m as [|m]; [lia|]. simpl.
    destruct (match_once self) as [self'|] eqn:E; [|done].
    apply match_once_measure in E. apply IH; lia.
Qed.

Lemma match_loop_enough fuel self :
  (measure self <= fuel)%nat -> match_loop fuel self = match_all self.
Proof. intros Hm. by apply match_loop_stable. Qed.

Lemma match_all_step self self' :
  match_once self = Some self' -> match_all self = match_all self'.
Proof.
  intros E. pose proof (match_once_measure _ _ E) as Hlt.
  unfold match_all at 1. destruct (measure self) as [|m]; [lia|].
  simpl. rewrite E. apply match_loop_enough. lia.
Qed.

End sessionacc_facts.

Module sessionacc_invariant.
Import sessionacc sessionacc_facts.
Local Open Scope Q_scope.

Lemma consume_positive f rest Qm :
  Qm <= qty f -> positive rest -> positive (consume f rest Qm).
Proof.
  intros Hle Hrest. unfold consume.
  destruct (Qeq_bool (qty f - Qm) 0) eqn:E; [done|].
  apply Qeq_bool_neq in E. constructor; [simpl|done].
  destruct (Qlt_le_dec 0 (qty f - Qm)) as [|Hneg]; [done|].
  exfalso. apply E. lra.
Qed.

Lemma match_once_positive self self' :
  match_once self = Some self' ->
  positive (_buys self) -> positive (_sells self) ->
  positive (_buys self') /\ positive (_sells self').
Proof.
  unfold match_once.
  destruct (_buys self) as [|b bs]; [done|].
  destruct (_sells self) as [|s ss]; [done|].
  intros [= <-] Hb Hs. simpl.
  apply Forall_cons in Hb as [_ Hb]. apply Forall_cons in Hs as [_ Hs].
  destruct (py_min_cases (qty b) (qty s)) as [[-> ?]|[-> ?]];
    split; apply consume_positive; try done; lra.
Qed.

Lemma match_loop_positive fuel self :
  positive (_buys self) -> positive (_sells self) ->
  positive (_buys (match_loop fuel self)) /\
  positive (_sells (match_loop fuel self)).
Proof.
  revert self. induction fuel as [|fuel IH]; intros self Hb Hs; simpl; [done|].
  destruct (match_once self) as [self'|] eqn:E; [|done].
  destruct (match_once_positive _ _ E Hb Hs). by apply IH.
Qed.

Lemma append_fill_positive self e :
  0 < execQty e ->
  positive (_buys self) -> positive (_sells self) ->
  positive (_buys (append_fill self e)) /\
  positive (_sells (append_fill self e)).
Proof.
  intros He Hb Hs. unfold append_fill, positive.
  destruct (String.eqb (side e) "Buy"); simpl; split; try done;
    apply Forall_app; split; try done; by repeat constructor.
Qed.

Lemma append_fills_positive data self :
  Forall (fun e => 0 < execQty e) data ->
  positive (_buys self) -> positive (_sells self) ->
  positive (_buys (fold_left append_fill data self)) /\
  positive (_sells (fold_left append_fill data self)).
Proof.
  intros Hd. revert self.
  induction Hd as [|e data He Hd IH]; intros self Hb Hs; simpl; [done|].
  destruct (append_fill_positive self e He Hb Hs). by apply IH.
Qed.

Lemma process_settled self data :
  Forall (fun e => 0 < execQty e) data ->
  positive (_buys self) -> positive (_sells self) ->
  settled (process self data).
Proof.
  intros Hd Hb Hs. unfold process, settled. split.
  - apply match_once_None, match_all_terminal.
  - apply match_loop_positive; apply append_fills_positive; try done;
      by apply sorted_Forall, filter_Forall.
Qed.

Lemma deliver_settled batches self :
  Forall (Forall (fun e => 0 < execQty e)) batches ->
  settled self -> settled (deliver self batches).
Proof.
  unfold deliver. intros Hb. revert self.
  induction Hb as [|data batches Hd Hb IH]; intros self Hs; simpl; [done|].
  apply IH. rewrite String.eqb_refl. simpl.
  destruct (existsb _ _); simpl; [|done].
  destruct Hs as (_ & ? & ?). by apply process_settled.
Qed.

Lemma init_settled symbol category maker taker :
  settled (init symbol category maker taker).
Proof. repeat split; simpl; try by left; constructor. Qed.

End sessionacc_invariant.

Module sessionacc_batches.
Import sessionacc sessionacc_facts.
Local Open Scope Q_scope.

Lemma relevant_config self self' :
  config self = config self' -> relevant self = relevant self'.
Proof. unfold config, relevant. by intros [= -> -> _]. Qed.

Lemma append_fill_config self e : config (append_fill self e) = config self.
Proof. unfold append_fill. by destruct (String.eqb _ _). Qed.

Lemma append_fills_config data self :
  config (fold_left append_fill data self) = config self.
Proof.
  revert self. induction data as [|e data IH]; intros self; simpl; [done|].
  by rewrite IH, append_fill_config.
Qed.

Lemma match_once_config self self' :
  match_once self = Some self' -> config self' = config self.
Proof.
  unfold match_once.
  destruct (_buys self); [done|]. destruct (_sells self); [done|].
  by intros [= <-].
Qed.

Lemma match_loop_config fuel self : config (match_loop fuel self) = config self.
Proof.
  revert self. induction fuel as [|fuel IH]; intros self; simpl; [done|].
  destruct (match_once self) as [self'|] eqn:E; [|done].
  by rewrite IH, (match_once_config _ _ E).
Qed.

(** The loop body only looks at the two heads, so it commutes with an
    append at the tails. *)
Lemma append_fill_match_once self self' e :
  match_once self = Some self' ->
  match_once (append_fill self e) = Some (append_fill self' e).
Proof.
  unfold match_once, append_fill.
  destruct (_buys self) as [|b bs] eqn:Eb; [done|].
  destruct (_sells self) as [|s ss] eqn:Es; [done|].
  intros [= <-]. destruct (String.eqb (side e) "Buy"); simpl;
    rewrite ?Eb, ?Es; unfold consume, net_profit, fee, set_queues; simpl;
    destruct (Qeq_bool (qty b - _) 0), (Qeq_bool (qty s - _) 0); reflexivity.
Qed.

Lemma append_fills_match_once data self self' :
  match_once self = Some self' ->
  match_once (fold_left append_fill data self)
  = Some (fold_left append_fill data self').
Proof.
  revert self self'. induction data as [|e data IH]; intros self self' E; simpl.
  - done.
  - by apply IH, append_fill_match_once.
Qed.

(** Matching before more fills are appended changes nothing: the matches
    made early are the first matches of the whole run. *)
Lemma match_all_append data self :
  match_all (fold_left append_fill data (match_all self))
  = match_all (fold_left append_fill data self).
Proof.
  remember (measure self) as n eqn:En. revert self En.
  induction n as [n IH] using lt_wf_ind. intros self ->.
  destruct (match_once self) as [self'|] eqn:E.
  - rewrite (match_all_step _ _ E).
    rewrite (match_all_step _ _ (append_fills_match_once data _ _ E)).
    eapply IH; [|done]. by apply match_once_measure.
  - by rewrite (match_all_done self).
Qed.

(** A batch handled on the subscribed topic, from a state whose loop
    condition is false. *)
Lemma on_exec_message_ingest self data :
  match_once self = None ->
  fst (_on_exec_message self (Topic (_topic self) data))
  = match_all (fold_left append_fill
                 (sorted execTime (List.filter (relevant self) data)) self).
Proof.
  intros Hdone. simpl. rewrite String.eqb_refl. simpl.
  destruct (existsb (relevant self) data) eqn:E; [done|]. simpl.
  assert (List.filter (relevant self) data = []) as ->.
  { clear Hdone. induction data as [|e data IH]; [done|]. simpl in *.
    apply orb_false_iff in E as [-> E]. by apply IH. }
  simpl. by rewrite match_all_done.
Qed.

Lemma deliver_cons self data batches :
  deliver self (data :: batches)
  = deliver (fst (_on_exec_message self (Topic (_topic self) data))) batches.
Proof. reflexivity. Qed.

Lemma deliver_ingest batches self :
  match_once self = None ->
  deliver self batches
  = match_all (fold_left append_fill
                 (concat (map (fun data =>
                    sorted execTime (List.filter (relevant self) data)) batches))
                 self).
Proof.
  revert self. induction batches as [|data batches IH]; intros self Hdone.
  - simpl. by rewrite match_all_done.
  - rewrite deliver_cons, on_exec_message_ingest by done.
    rewrite IH by apply match_all_terminal.
    rewrite (relevant_config (match_all _) self)
      by (unfold match_all; by rewrite match_loop_config, append_fills_config).
    rewrite match_all_append. simpl. by rewrite fold_left_app.
Qed.

Lemma filter_concat {A : Type} (f : A -> bool) (ls : list (list A)) :
  List.filter f (concat ls) = concat (map (List.filter f) ls).
Proof.
  induction ls as [|l ls IH]; simpl; [done|]. by rewrite List.filter_app, IH.
Qed.

(** Batches in time order: sorting each batch and concatenating is sorting
    the concatenation. *)
Lemma sorted_batches (f : execution -> bool) batches :
  in_time_order batches ->
  concat (map (fun data => sorted execTime (List.filter f data)) batches)
  = sorted execTime (List.filter f (concat batches)).
Proof.
  induction batches as [|data batches IH]; simpl; [done|].
  intros [Hd Hrest]. rewrite IH by done.
  rewrite List.filter_app, sorted_app; [done|].
  apply filter_Forall. eapply Forall_impl; [exact Hd|].
  simpl. intros e He. by apply filter_Forall.
Qed.

End sessionacc_batches.

Module sessionacc_claims.
Import sessionacc sessionacc_facts sessionacc_invariant sessionacc_batches.
Local Open Scope Q_scope.

(** C8. The win-rate accessor returns wins divided by the matched-trade
    count when that count is not zero, and the no-data result [None], not an
    exception, when the count is zero. *)
Theorem win_rate_defined (self : SessionAcc) :
  ((_n_matched self <> 0)%Z ->
     win_rate self = Some (inject_Z (_wins self) / inject_Z (_n_matched self))) /\
  ((_n_matched self = 0)%Z -> win_rate self = None).
Proof.
  unfold win_rate, py_truediv.
  destruct (Z.eqb_spec (_n_matched self) 0) as [E|E]; split; intros H; congruence.
Qed.

(** C2. A single full match of a buy fill (price pb, quantity Qm, maker flag
    mb) against a sell fill (price ps, quantity Qm, maker flag ms) adds
    Qm*ps - Qm*pb - Qm*pb*feeRate(mb) - Qm*ps*feeRate(ms) to the realised PnL,
    increments the matched-trade counter by one, and increments the win
    counter exactly when that net profit is at least zero.  Both heads are
    consumed. *)
Theorem full_match_net_profit (self : SessionAcc) (b s : fill)
    (bs ss : list fill) (Qm : Q) :
  _buys self = b :: bs -> _sells self = s :: ss ->
  qty b = Qm -> qty s = Qm ->
  exists self',
    match_once self = Some self' /\
    pnl self' = pnl self
                + spec_net_profit self (price b) (price s) Qm
                    (fill_isMaker b) (fill_isMaker s) /\
    _n_matched self' = (_n_matched self + 1)%Z /\
    (0 <= spec_net_profit self (price b) (price s) Qm
            (fill_isMaker b) (fill_isMaker s) ->
       _wins self' = (_wins self + 1)%Z) /\
    (~ 0 <= spec_net_profit self (price b) (price s) Qm
              (fill_isMaker b) (fill_isMaker s) ->
       _wins self' = _wins self) /\
    _buys self' = bs /\ _sells self' = ss.
Proof.
  intros Hb Hs Eb Es. unfold match_once. rewrite Hb, Hs.
  eexists. split; [reflexivity|]. unfold pnl. simpl.
  rewrite Eb, Es, py_min_same.
  assert (Hnet : net_profit self b s Qm
                 = spec_net_profit self (price b) (price s) Qm
                     (fill_isMaker b) (fill_isMaker s)).
  { unfold net_profit, spec_net_profit, fee, feeRate.
    by destruct (fill_isMaker b), (fill_isMaker s). }
  rewrite Hnet. repeat split.
  - intros Hle. apply Qle_bool_iff in Hle. by rewrite Hle.
  - intros Hlt. destruct (Qle_bool _ _) eqn:E; [|done].
    by apply Qle_bool_iff in E.
  - apply consume_all. congruence.
  - apply consume_all. congruence.
Qed.

(** The scenario of the specification: maker rate 0, taker rate 0.001, buy 1
    at 100 as maker, sell 1 at 110 as taker. *)
Lemma full_match_net_profit_witness :
  exists self',
    match_once scenario_state = Some self' /\
    pnl self' = pnl scenario_state
                + spec_net_profit scenario_state 100 110 1 true false /\
    _n_matched self' = 1%Z /\
    (0 <= spec_net_profit scenario_state 100 110 1 true false ->
       _wins self' = 1%Z) /\
    (~ 0 <= spec_net_profit scenario_state 100 110 1 true false ->
       _wins self' = 0%Z) /\
    _buys self' = [] /\ _sells self' = [].
Proof.
  exact (full_match_net_profit scenario_state
           {| price := 100; qty := 1; fill_isMaker := true |}
           {| price := 110; qty := 1; fill_isMaker := false |}
           [] [] 1 eq_refl eq_refl eq_refl eq_refl).
Defined.

(** C6. Starting from a fresh engine and feeding batches of fills with
    positive quantities, after each batch at least one of the two queues is
    empty, and the head of a queue that is not empty has a positive remaining
    quantity. *)
Theorem queues_settled_after_each_batch (symbol category : string)
    (maker taker : Q) (batches : list (list execution)) (k : nat) :
  Forall (Forall (fun e => 0 < execQty e)) batches ->
  (_buys (deliver (init symbol category maker taker) (take k batches)) = [] \/
   _sells (deliver (init symbol category maker taker) (take k batches)) = []) /\
  (forall f,
     head (_buys (deliver (init symbol category maker taker) (take k batches)))
     = Some f -> 0 < qty f) /\
  (forall f,
     head (_sells (deliver (init symbol category maker taker) (take k batches)))
     = Some f -> 0 < qty f).
Proof.
  intros Hpos.
  assert (Hs : settled (deliver (init symbol category maker taker) (take k batches))).
  { apply deliver_settled; [|apply init_settled]. by apply Forall_take. }
  destruct Hs as (Hempty & Hb & Hs). split; [done|].
  split; intros f Hf.
  - destruct (_buys _) as [|f' l]; [done|]. simpl in Hf.
    injection Hf as ->. by apply Forall_cons in Hb as [? _].
  - destruct (_sells _) as [|f' l]; [done|]. simpl in Hf.
    injection Hf as ->. by apply Forall_cons in Hs as [? _].
Qed.

(** C5, as stated, fails, in two ways.  The fills of [presorted], delivered
    with the second buy ahead of the first, are matched in another order: the
    late delivery pairs the sell with the buy at 200 (PnL -50), the pre-sorted
    batch pairs it with the buy at 100 (PnL 50).  And when two buys carry the
    same execution time, batches in time order are matched in delivery order
    (PnL -50) while another listing of the same fills, also sorted by
    execution time, gives PnL 50. *)
Lemma delivery_order_changes_pnl :
  (sorted execTime (concat late_delivery) = presorted /\
   pnl (deliver fresh_engine late_delivery) == - (50) /\
   pnl (deliver fresh_engine [presorted]) == 50 /\
   ~ pnl (deliver fresh_engine late_delivery)
     == pnl (deliver fresh_engine [sorted execTime (concat late_delivery)])) /\
  (in_time_order tied_delivery /\
   Permutation (concat tied_delivery) tied_presorted /\
   StronglySorted (fun e e' => (execTime e <= execTime e')%Z) tied_presorted /\
   pnl (deliver fresh_engine tied_delivery) == - (50) /\
   pnl (deliver fresh_engine [tied_presorted]) == 50 /\
   ~ pnl (deliver fresh_engine tied_delivery)
     == pnl (deliver fresh_engine [tied_presorted])).
Proof.
  split.
  - repeat split; vm_compute; done.
  - split; [vm_compute; repeat constructor; discriminate|].
    split.
    { apply (Permutation_app_comm [tied_buy; the_sell] [first_buy]). }
    split; [repeat constructor; vm_compute; discriminate|].
    repeat split; vm_compute; done.
Qed.

(** C5, amended.  Batches that arrive in execution-time order, each sorted by
    the handler, give the same final PnL, drawdown and win rate as the whole
    set fed as one batch pre-sorted by execution time, fills of equal
    execution time keeping their delivery order. *)
Theorem time_ordered_delivery_invariant (symbol category : string)
    (maker taker : Q) (batches : list (list execution)) :
  in_time_order batches ->
  metrics (deliver (init symbol category maker taker) batches)
  = metrics (deliver (init symbol category maker taker)
               [sorted execTime (concat batches)]).
Proof.
  intros Hord. f_equal.
  rewrite !deliver_ingest by done. f_equal. simpl.
  by rewrite app_nil_r, sorted_filter_sorted, sorted_batches.
Qed.

Lemma time_ordered_delivery_invariant_witness :
  metrics (deliver fresh_engine timely_delivery)
  = metrics (deliver fresh_engine [sorted execTime (concat timely_delivery)]).
Proof.
  apply (time_ordered_delivery_invariant "ADAUSDT" "linear" 0 0 timely_delivery).
  vm_compute. repeat constructor; discriminate.
Defined.

Lemma queues_settled_after_each_batch_witness :
  (_buys (deliver fresh_engine (take 2 timely_delivery)) = [] \/
   _sells (deliver fresh_engine (take 2 timely_delivery)) = []) /\
  (forall f, head (_buys (deliver fresh_engine (take 2 timely_delivery))) = Some f ->
             0 < qty f) /\
  (forall f, head (_sells (deliver fresh_engine (take 2 timely_delivery))) = Some f ->
             0 < qty f).
Proof.
  apply (queues_settled_after_each_batch "ADAUSDT" "linear" 0 0 timely_delivery 2).
  repeat constructor.
Defined.

End sessionacc_claims.

(** ** Rate throttle *)

Module throttle_facts.
Import throttle.
Local Open Scope Q_scope.

Section Clock.
Variable clock : nat -> Q.
Hypothesis clock_monotone : monotone clock.

Lemma expired_later r r' l :
  (r <= r')%nat -> expired clock r l -> expired clock r' l.
Proof.
  intros Hr He. unfold expired. eapply Exists_impl; [exact He|].
  simpl. intros t Ht. pose proof (clock_monotone r r' Hr). lra.
Qed.

Lemma prune_from_next calls n :
  snd (prune_from clock calls n) = (n + length calls)%nat.
Proof.
  revert n. induction calls as [|t calls IH]; intros n; simpl; [lia|].
  specialize (IH (S n)). destruct (prune_from clock calls (S n)).
  simpl in *. lia.
Qed.

(** A list of timestamps held in the window survives a pruning pass, or one
    of them has expired by the end of the pass. *)
Lemma prune_from_keeps calls n l :
  l `sublist_of` calls ->
  l `sublist_of` fst (prune_from clock calls n) \/
  expired clock (snd (prune_from clock calls n)) l.
Proof.
  revert n l. induction calls as [|t calls IH]; intros n l Hl; simpl.
  - by left.
  - pose proof (prune_from_next calls (S n)) as Hn.
    specialize (IH (S n)).
    destruct (prune_from clock calls (S n)) as [kept n'] eqn:E. simpl in *.
    apply sublist_cons_r in Hl as [Hl|(l' & -> & Hl)].
    + destruct (IH l Hl) as [Hk|He]; [left|by right].
      destruct (Qle_bool (clock n - t) 1); [by apply sublist_cons|done].
    + destruct (Qle_bool (clock n - t) 1) eqn:Et.
      * destruct (IH l' Hl) as [Hk|He]; [left; by apply sublist_skip|right].
        by apply Exists_cons_tl.
      * right. apply Exists_cons_hd. apply Qle_bool_false in Et.
        pose proof (clock_monotone n n' ltac:(lia)). lra.
Qed.

Lemma prune_keeps w l :
  l `sublist_of` _calls w ->
  l `sublist_of` _calls (prune clock w) \/ expired clock (reads (prune clock w)) l.
Proof.
  intros Hl. unfold prune.
  pose proof (prune_from_keeps (_calls w) (reads w) l Hl) as H.
  by destruct (prune_from clock (_calls w) (reads w)).
Qed.

Lemma prune_next w : reads (prune clock w) = (reads w + length (_calls w))%nat.
Proof.
  unfold prune. pose proof (prune_from_next (_calls w) (reads w)) as H.
  by destruct (prune_from clock (_calls w) (reads w)).
Qed.

Lemma wait_next fuel rate w w' :
  wait clock fuel rate w = Some w' -> (reads w <= reads w')%nat.
Proof.
  revert w. induction fuel as [|fuel IH]; intros w; simpl.
  - destruct (blocked rate w); [done|]. by intros [= ->].
  - destruct (blocked rate w); [|by intros [= ->]].
    intros H. apply IH in H. rewrite prune_next in H. lia.
Qed.

Lemma wait_keeps fuel rate w w' l :
  wait clock fuel rate w = Some w' ->
  l `sublist_of` _calls w ->
  l `sublist_of` _calls w' \/ expired clock (reads w') l.
Proof.
  revert w. induction fuel as [|fuel IH]; intros w; simpl.
  - destruct (blocked rate w); [done|]. intros [= ->]. by left.
  - destruct (blocked rate w); [|intros [= ->]; by left].
    intros H Hl. destruct (prune_keeps w l Hl) as [Hk|He]; [by eapply IH|].
    right. eapply expired_later; [|exact He]. by eapply wait_next.
Qed.

(** The loop leaves with fewer than [rate] timestamps. *)
Lemma wait_unblocked fuel rate w w' :
  wait clock fuel rate w = Some w' ->
  (Z.of_nat (length (_calls w')) < rate)%Z.
Proof.
  revert w. induction fuel as [|fuel IH]; intros w; simpl;
    destruct (blocked rate w) eqn:E; try done;
    try (intros [= <-]; unfold blocked in E; lia).
  apply IH.
Qed.

(** What a throttled call that returns has done: it recorded the reading
    [clock r] behind fewer than [rate] kept timestamps. *)
Lemma call_returns rate d fuel w w' :
  call clock rate d fuel w = Some w' ->
  exists kept r,
    _calls w' = kept ++ [clock r] /\
    (reads w <= r)%nat /\ reads w' = S r /\
    (Z.of_nat (length kept) < rate)%Z /\
    forall l, l `sublist_of` _calls w -> l `sublist_of` kept \/ expired clock r l.
Proof.
  unfold call, throttle. simpl.
  destruct (wait clock fuel rate (prune clock w)) as [w1|] eqn:Ew; [|done].
  intros [= <-]. exists (_calls w1), (d + reads w1)%nat. simpl.
  pose proof (wait_next _ _ _ _ Ew) as Hn. rewrite prune_next in Hn.
  repeat split; [lia|by eapply wait_unblocked|].
  intros l Hl. destruct (prune_keeps w l Hl) as [Hk|He].
  - destruct (wait_keeps _ _ _ _ l Ew Hk) as [?|He]; [by left|right].
    eapply expired_later; [|exact He]. lia.
  - right. eapply expired_later; [|exact He].
    pose proof (wait_next _ _ _ _ Ew). lia.
Qed.

(** Pruning only drops timestamps that have left the window for good. *)
Lemma prune_from_window calls n m :
  (snd (prune_from clock calls n) <= m)%nat ->
  List.filter (in_window clock m) (fst (prune_from clock calls n))
  = List.filter (in_window clock m) calls.
Proof.
  revert n. induction calls as [|t calls IH]; intros n; simpl; [done|].
  pose proof (prune_from_next calls (S n)) as Hn. specialize (IH (S n)).
  destruct (prune_from clock calls (S n)) as [kept n'] eqn:E. simpl in *.
  intros Hm. destruct (Qle_bool (clock n - t) 1) eqn:Et; simpl.
  - by rewrite IH.
  - rewrite IH by done. apply Qle_bool_false in Et.
    pose proof (clock_monotone n m ltac:(lia)).
    unfold in_window. destruct (Qle_bool (clock m - t) 1) eqn:Em; [|done].
    apply Qle_bool_iff in Em. lra.
Qed.

Lemma prune_window w m :
  (reads (prune clock w) <= m)%nat ->
  List.filter (in_window clock m) (_calls (prune clock w))
  = List.filter (in_window clock m) (_calls w).
Proof.
  unfold prune. pose proof (prune_from_window (_calls w) (reads w) m) as H.
  by destruct (prune_from clock (_calls w) (reads w)).
Qed.

Lemma wait_window fuel rate w w' m :
  wait clock fuel rate w = Some w' -> (reads w' <= m)%nat ->
  List.filter (in_window clock m) (_calls w')
  = List.filter (in_window clock m) (_calls w).
Proof.
  revert w. induction fuel as [|fuel IH]; intros w; simpl;
    destruct (blocked rate w); try done; try by intros [= ->].
  intros H Hm. rewrite (IH _ H Hm). apply prune_window.
  apply wait_next in H. lia.
Qed.

Lemma length_filter_le {A : Type} (f : A -> bool) (l : list A) :
  (length (List.filter f l) <= length l)%nat.
Proof.
  induction l as [|x l IH]; simpl; [done|]. destruct (f x); simpl; lia.
Qed.

(** When a throttled call records its timestamp, fewer than [rate] of the
    earlier timestamps lie in the trailing 1-second window. *)
Lemma call_window rate d fuel w w' :
  call clock rate d fuel w = Some w' ->
  exists r,
    last (_calls w') = Some (clock r) /\
    (Z.of_nat (length (List.filter (in_window clock r) (_calls w))) < rate)%Z.
Proof.
  unfold call, throttle. simpl.
  destruct (wait clock fuel rate (prune clock w)) as [w1|] eqn:Ew; [|done].
  intros [= <-]. exists (d + reads w1)%nat. simpl. split; [apply last_snoc|].
  pose proof (wait_unblocked _ _ _ _ Ew) as Hlt.
  pose proof (wait_next _ _ _ _ Ew) as Hn.
  rewrite <- (prune_window w (d + reads w1)) by lia.
  rewrite <- (wait_window _ _ _ _ (d + reads w1)%nat Ew) by lia.
  pose proof (length_filter_le (in_window clock (d + reads w1)) (_calls w1)). lia.
Qed.

(** Once every recorded timestamp has expired, one pruning pass empties the
    window. *)
Lemma prune_from_all_expired calls n N :
  Forall (fun t => t + 1 < clock N) calls -> (N <= n)%nat ->
  fst (prune_from clock calls n) = [].
Proof.
  intros Hc. revert n. induction Hc as [|t calls Ht Hc IH]; intros n Hn; simpl.
  - done.
  - specialize (IH (S n) ltac:(lia)).
    destruct (prune_from clock calls (S n)) as [kept n']. simpl in *.
    destruct (Qle_bool (clock n - t) 1) eqn:Et; [|done].
    apply Qle_bool_iff in Et. pose proof (clock_monotone N n Hn). lra.
Qed.

Lemma prune_from_Forall (P : Q -> Prop) calls n :
  Forall P calls -> Forall P (fst (prune_from clock calls n)).
Proof.
  intros Hc. revert n. induction Hc as [|t calls Ht Hc IH]; intros n; simpl.
  - constructor.
  - specialize (IH (S n)).
    destruct (prune_from clock calls (S n)) as [kept n']. simpl in *.
    destruct (Qle_bool _ _); [by constructor|done].
Qed.

(** With a positive rate the loop leaves within [S (N - reads w)] passes,
    [N] being a read by which every timestamp has expired. *)
Lemma wait_returns rate N k w :
  (0 < rate)%Z ->
  Forall (fun t => t + 1 < clock N) (_calls w) ->
  (N - reads w <= k)%nat ->
  exists w', wait clock (S k) rate w = Some w'.
Proof.
  intros Hrate. revert w. induction k as [|k IH]; intros w Hc Hk;
    simpl; destruct (blocked rate w) eqn:Eb; eauto.
  - exists (prune clock w). unfold blocked, prune.
    pose proof (prune_from_all_expired (_calls w) (reads w) N Hc ltac:(lia)) as E.
    destruct (prune_from clock (_calls w) (reads w)) as [kept n'].
    simpl in *. subst kept. simpl.
    destruct (Z.leb_spec rate (Z.of_nat 0)); [lia|done].
  - apply IH.
    + unfold prune. pose proof (prune_from_Forall _ (_calls w) (reads w) Hc) as H.
      by destruct (prune_from clock (_calls w) (reads w)).
    + rewrite prune_next. unfold blocked in Eb. apply Z.leb_le in Eb.
      destruct (_calls w); simpl in *; lia.
Qed.

Lemma all_expire (unb : unbounded clock) (calls : list Q) :
  exists N, Forall (fun t => t + 1 < clock N) calls.
Proof.
  induction calls as [|t calls [N HN]]; [by exists O|].
  destruct (unb (t + 1)) as [M HM]. exists (Nat.max N M). constructor.
  - pose proof (clock_monotone M (Nat.max N M) ltac:(lia)). lra.
  - eapply Forall_impl; [exact HN|]. simpl. intros t' Ht'.
    pose proof (clock_monotone N (Nat.max N M) ltac:(lia)). lra.
Qed.

(** A throttled call returns when the clock keeps advancing. *)
Lemma call_terminates rate d w :
  unbounded clock -> (0 < rate)%Z ->
  exists fuel w', call clock rate d fuel w = Some w'.
Proof.
  intros unb Hrate.
  destruct (all_expire unb (_calls (prune clock w))) as [N HN].
  destruct (wait_returns rate N (N - reads (prune clock w)) (prune clock w))
    as [w1 Hw1]; [done|done|lia|].
  exists (S (N - reads (prune clock w))). unfold call, throttle.
  cbn [fst snd]. rewrite Hw1. eauto.
Qed.

End Clock.
End throttle_facts.

Module throttle_claims.
Import throttle throttle_facts.
Local Open Scope Q_scope.

(** C9. Under a clock that never runs backwards: four throttled calls back to
    back at rate 3 record the fourth timestamp no earlier than one second
    after the first; in general a call records its timestamp only when fewer
    than [rate] of the earlier timestamps lie in the trailing 1-second
    window; and with a positive rate and a clock that keeps advancing the
    call does return. *)
Theorem throttle_window (clock : nat -> Q) :
  monotone clock ->
  (forall d1 d2 d3 d4 f1 f2 f3 f4 w0 w1 w2 w3 w4,
     call clock 3 d1 f1 w0 = Some w1 ->
     call clock 3 d2 f2 w1 = Some w2 ->
     call clock 3 d3 f3 w2 = Some w3 ->
     call clock 3 d4 f4 w3 = Some w4 ->
     exists t1 t4,
       last (_calls w1) = Some t1 /\ last (_calls w4) = Some t4 /\
       t1 + 1 <= t4) /\
  (forall rate d fuel w w',
     call clock rate d fuel w = Some w' ->
     exists r,
       last (_calls w') = Some (clock r) /\
       (Z.of_nat (length (List.filter (in_window clock r) (_calls w))) < rate)%Z) /\
  (unbounded clock ->
   forall rate d w, (0 < rate)%Z ->
     exists fuel w', call clock rate d fuel w = Some w').
Proof.
  intros Hmono. split; [|split].
  - intros d1 d2 d3 d4 f1 f2 f3 f4 w0 w1 w2 w3 w4 H1 H2 H3 H4.
    apply (call_returns clock Hmono) in H1 as (k1 & r1 & E1 & _ & N1 & _ & _).
    apply (call_returns clock Hmono) in H2 as (k2 & r2 & E2 & R2 & N2 & _ & K2).
    apply (call_returns clock Hmono) in H3 as (k3 & r3 & E3 & R3 & N3 & _ & K3).
    apply (call_returns clock Hmono) in H4 as (k4 & r4 & E4 & R4 & N4 & L4 & K4).
    exists (clock r1), (clock r4). rewrite E1, E4, !last_snoc.
    split; [done|]. split; [done|].
    pose proof (Hmono r1 r2 ltac:(lia)). pose proof (Hmono r2 r3 ltac:(lia)).
    pose proof (Hmono r3 r4 ltac:(lia)).
    assert (Hold : forall l r, (r <= r4)%nat ->
              Forall (fun t => clock r1 <= t) l -> expired clock r l ->
              clock r1 + 1 <= clock r4).
    { intros l r Hr Hl He. unfold expired in He.
      apply Exists_exists in He as (t & Ht & Hlt).
      pose proof (proj1 (Forall_forall _ _) Hl t Ht) as Hge. simpl in Hge.
      pose proof (Hmono r r4 Hr). lra. }
    destruct (K2 [clock r1]) as [S2|X2].
    { rewrite E1. apply sublist_inserts_l. done. }
    2:{ eapply (Hold _ r2); [lia| |exact X2]. repeat constructor. lra. }
    destruct (K3 [clock r1; clock r2]) as [S3|X3].
    { rewrite E2. by apply (sublist_app [clock r1] k2 [clock r2] [clock r2]). }
    2:{ eapply (Hold _ r3); [lia| |exact X3]. repeat constructor; lra. }
    destruct (K4 [clock r1; clock r2; clock r3]) as [S4|X4].
    { rewrite E3.
      by apply (sublist_app [clock r1; clock r2] k3 [clock r3] [clock r3]). }
    2:{ eapply (Hold _ r4); [lia| |exact X4]. repeat constructor; lra. }
    apply sublist_length in S4. simpl in S4. lia.
  - intros rate d fuel w w'. apply call_window. exact Hmono.
  - intros unb rate d w. by apply call_terminates.
Qed.

Lemma tenth_clock_monotone : monotone tenth_clock.
Proof. intros n m Hnm. unfold tenth_clock, Qle. simpl. lia. Qed.

(** At a tenth of a second per clock read: the first call records 0, the
    fourth is held for two passes of the loop and records 1.5. *)
Lemma throttle_window_witness :
  exists t1 t4,
    last (_calls (after 1)) = Some t1 /\ last (_calls (after 4)) = Some t4 /\
    t1 + 1 <= t4.
Proof.
  apply (proj1 (throttle_window tenth_clock tenth_clock_monotone)
           0 0 0 0 2 2 2 2 (after 0) (after 1) (after 2) (after 3) (after 4))%nat;
    vm_compute; reflexivity.
Defined.

End throttle_claims.

(** ** Order state engine *)

Module oms_orders.
Import oms.
Local Open Scope Q_scope.

Lemma filter_Forall_cond {A : Type} (P : A -> Prop) (f : A -> bool) (l : list A) :
  Forall (fun x => f x = true -> P x) l -> Forall P (List.filter f l).
Proof.
  induction 1 as [|x l Hx Hl IH]; simpl; [constructor|].
  destruct (f x) eqn:E; [constructor; auto|done].
Qed.

(** What one update leaves under its own link-id. *)
Lemma apply_order_own self o :
  _order_status (apply_order self o) !! orderLinkId o = Some (orderStatus o) /\
  _active_orders (apply_order self o) !! orderLinkId o
  = if Qeq_bool (leavesQty o) 0 then None else Some o.
Proof.
  unfold apply_order. destruct (Qeq_bool (leavesQty o) 0); simpl.
  - by rewrite lookup_insert_eq, lookup_delete_eq.
  - by rewrite !lookup_insert_eq.
Qed.

(** An update leaves every other link-id alone. *)
Lemma apply_order_other self o link :
  orderLinkId o <> link ->
  _order_status (apply_order self o) !! link = _order_status self !! link /\
  _active_orders (apply_order self o) !! link = _active_orders self !! link.
Proof.
  intros Hne. unfold apply_order. destruct (Qeq_bool (leavesQty o) 0); simpl.
  - by rewrite lookup_insert_ne, lookup_delete_ne.
  - by rewrite !lookup_insert_ne.
Qed.

Lemma apply_orders_other data self link :
  Forall (fun o => orderLinkId o <> link) data ->
  _order_status (fold_left apply_order data self) !! link
  = _order_status self !! link /\
  _active_orders (fold_left apply_order data self) !! link
  = _active_orders self !! link.
Proof.
  intros Hd. revert self.
  induction Hd as [|o data Ho Hd IH]; intros self; simpl; [done|].
  destruct (IH (apply_order self o)) as [-> ->]. by apply apply_order_other.
Qed.

(** The update applied last for a link-id decides what is stored for it. *)
Lemma apply_orders_last xs o ys self :
  Forall (fun o' => orderLinkId o' <> orderLinkId o) ys ->
  _order_status (fold_left apply_order (xs ++ o :: ys) self) !! orderLinkId o
  = Some (orderStatus o) /\
  _active_orders (fold_left apply_order (xs ++ o :: ys) self) !! orderLinkId o
  = if Qeq_bool (leavesQty o) 0 then None else Some o.
Proof.
  intros Hys. rewrite fold_left_app. simpl.
  destruct (apply_orders_other ys (apply_order (fold_left apply_order xs self) o)
              (orderLinkId o) Hys) as [-> ->].
  apply apply_order_own.
Qed.

Section Latest.
Context {A : Type} (key : A -> Z) (same : A -> Prop).

(** Inserting [p] into a list around [o] lands behind [o] only when the key
    of [p] is strictly larger. *)
Lemma insert_by_around p xs o ys :
  exists xs' ys',
    insert_by key p (xs ++ o :: ys) = xs' ++ o :: ys' /\
    (ys' = ys \/ ((key o < key p)%Z /\ ys' = insert_by key p ys)).
Proof.
  induction xs as [|x xs IH]; simpl.
  - destruct (key p <=? key o)%Z eqn:E.
    + exists [p], ys. auto.
    + exists [], (insert_by key p ys). apply Z.leb_gt in E. auto.
  - destruct (key p <=? key x)%Z.
    + exists (p :: x :: xs), ys. auto.
    + destruct IH as (xs' & ys' & -> & H). exists (x :: xs'), ys'. auto.
Qed.

(** Inserting [o] into a sorted list whose [same] elements are strictly
    older puts no [same] element behind [o]. *)
Lemma insert_by_latest o l :
  StronglySorted (fun a b => (key a <= key b)%Z) l ->
  Forall (fun o' => same o' -> (key o' < key o)%Z) l ->
  exists xs ys,
    insert_by key o l = xs ++ o :: ys /\ Forall (fun o' => ~ same o') ys.
Proof.
  induction 1 as [|y l Hl IH Hy]; intros Hold; simpl.
  - exists [], []. by split.
  - apply Forall_cons in Hold as [Holdy Hold].
    destruct (key o <=? key y)%Z eqn:E.
    + apply Z.leb_le in E. exists [], (y :: l). split; [done|].
      constructor; [intros Hs; specialize (Holdy Hs); lia|].
      apply Forall_forall. intros z Hz Hs.
      pose proof (proj1 (Forall_forall _ _) Hy z Hz) as H1.
      pose proof (proj1 (Forall_forall _ _) Hold z Hz Hs) as H2.
      simpl in H1, H2. lia.
    + destruct (IH Hold) as (xs & ys & -> & Hys). by exists (y :: xs), ys.
Qed.

(** In [sorted(pre + [o] + post)], when the [same] elements of [pre] are not
    newer than [o] and those of [post] are strictly older, every [same]
    element is applied before [o] or is [o] itself. *)
Lemma sorted_latest (f : A -> bool) pre o post :
  f o = true ->
  Forall (fun o' => f o' = true -> same o' -> (key o' <= key o)%Z) pre ->
  Forall (fun o' => f o' = true -> same o' -> (key o' < key o)%Z) post ->
  exists xs ys,
    sorted key (List.filter f (pre ++ o :: post)) = xs ++ o :: ys /\
    Forall (fun o' => ~ same o') ys.
Proof.
  intros Ho Hpre Hpost. induction Hpre as [|p pre Hp Hpre IH]; simpl.
  - rewrite Ho. simpl. apply insert_by_latest; [apply sorted_sorted|].
    apply sorted_Forall, filter_Forall_cond.
    eapply Forall_impl; [exact Hpost|]. simpl. auto.
  - destruct (f p) eqn:Ep; [|done]. simpl.
    destruct IH as (xs & ys & E & Hys).
    fold (sorted key (List.filter f (pre ++ o :: post))). rewrite E.
    destruct (insert_by_around p xs o ys) as (xs' & ys' & -> & [->|[Hlt ->]]).
    + by exists xs', ys.
    + exists xs', (insert_by key p ys). split; [done|].
      apply insert_by_Forall; [|done]. intros Hs. specialize (Hp eq_refl Hs). lia.
Qed.
End Latest.

End oms_orders.

Module oms_claims.
Import oms oms_orders.
Local Open Scope Q_scope.

(** C7. After the order-stream handler has processed a batch, an order of
    the tracked symbol and category whose latest update reported
    leaves-quantity 0 is absent from the active-order set while its last
    status is still retrievable, and one whose latest update reported a
    positive leaves-quantity is present.  The latest update [o] of a link-id
    is the one with the greatest update time, the later in the batch among
    equal times. *)
Theorem active_order_membership (self : Oms) (pre post : list order) (o : order) :
  relevant self o = true ->
  Forall (fun o' => relevant self o' = true ->
                    orderLinkId o' = orderLinkId o ->
                    (updatedTime o' <= updatedTime o)%Z) pre ->
  Forall (fun o' => relevant self o' = true ->
                    orderLinkId o' = orderLinkId o ->
                    (updatedTime o' < updatedTime o)%Z) post ->
  (leavesQty o == 0 ->
     _active_orders (fst (_on_order_message self (Topic "order" (pre ++ o :: post))))
       !! orderLinkId o = None /\
     order_status (fst (_on_order_message self (Topic "order" (pre ++ o :: post))))
       (orderLinkId o) = inr (orderStatus o)) /\
  (0 < leavesQty o ->
     _active_orders (fst (_on_order_message self (Topic "order" (pre ++ o :: post))))
       !! orderLinkId o = Some o).
Proof.
  intros Ho Hpre Hpost. simpl.
  assert (existsb (relevant self) (pre ++ o :: post) = true) as ->.
  { apply existsb_exists. exists o. split; [|done].
    apply in_or_app. right. by left. }
  simpl.
  destruct (sorted_latest updatedTime (fun o' => orderLinkId o' = orderLinkId o)
              (relevant self) pre o post Ho Hpre Hpost) as (xs & ys & -> & Hys).
  destruct (apply_orders_last xs o ys self Hys) as [Hst Hact].
  unfold order_status. rewrite Hst, Hact. split.
  - intros Hz. apply Qeq_bool_iff in Hz. by rewrite Hz.
  - intros Hp. destruct (Qeq_bool (leavesQty o) 0) eqn:E; [|done].
    apply Qeq_bool_iff in E. lra.
Qed.

Lemma active_order_membership_witness :
  (leavesQty filled == 0 ->
     _active_orders (fst (_on_order_message fresh (Topic "order" ([opened] ++ filled :: []))))
       !! orderLinkId filled = None /\
     order_status (fst (_on_order_message fresh (Topic "order" ([opened] ++ filled :: []))))
       (orderLinkId filled) = inr (orderStatus filled)) /\
  (0 < leavesQty filled ->
     _active_orders (fst (_on_order_message fresh (Topic "order" ([opened] ++ filled :: []))))
       !! orderLinkId filled = Some filled).
Proof.
  apply (active_order_membership fresh [opened] [] filled).
  - reflexivity.
  - repeat constructor. simpl. lia.
  - constructor.
Defined.

End oms_claims.

(** ** Throttled order operations *)

Module oms_operations.
Import oms.
Local Open Scope Q_scope.

Section Clock.
Variable clock : nat -> Q.

(** A throttled call that returns has run its function once, from a world
    reached by waiting. *)
Lemma throttle_returns {S : Type} rate
    (func : world * S -> (world * S) * option exn) fuel w s w' s' e :
  throttle.throttle clock rate func fuel (w, s) = Some ((w', s'), e) ->
  exists w1 w2,
    (reads w <= reads w1)%nat /\
    func (w1, s) = ((w2, s'), e).
Proof.
  unfold throttle.throttle. simpl.
  destruct (throttle.wait clock fuel rate (throttle.prune clock w)) as [w1|] eqn:Ew;
    [|done].
  destruct (func (w1, s)) as [[w2 s2] e2] eqn:Ef.
  intros H. exists w1, w2. split.
  - apply throttle_facts.wait_next in Ew.
    rewrite throttle_facts.prune_next in Ew. lia.
  - destruct e2; injection H as <- <- <-; done.
Qed.

Lemma order_status_set_status self link status :
  order_status (set_status self link status) link = inr status.
Proof. unfold order_status, set_status. simpl. by rewrite lookup_insert_eq. Qed.

(** The body of [create_order], case by case. *)
Lemma create_order_body_cases kwargs w self w' self' e :
  create_order_body clock kwargs (w, self) = ((w', self'), e) ->
  (_position_event self = true ->
     e = None /\
     order_status self' (link_of self kwargs) = inr "Unsubmitted" /\
     transmitted self' = transmitted self) /\
  (_position_event self = false ->
     forall sent q,
       _websockets self !! "trade" = Some sent ->
       p_qty kwargs = Some q ->
       e = None /\
       transmitted self'
       = sent ++ [create_request self kwargs (pretty (py_int (clock (reads w) * 1000)))] /\
       order_status self' (link_of self kwargs)
       = inr (if Qeq_bool q 0 then "Unsubmitted" else "")).
Proof.
  unfold create_request, create_order_body, link_of, timestamp, throttle.time.
  simpl. intros H. split.
  - intros Hev.
    destruct (p_orderLinkId kwargs) as [link|]; simpl in H; rewrite Hev in H;
      simpl in H; injection H as <- <- <-;
      by rewrite order_status_set_status.
  - intros Hev sent q Hsent Hq.
    destruct (p_orderLinkId kwargs) as [link|]; simpl in H; rewrite Hev in H;
      simpl in H; unfold send in H; simpl in H; rewrite Hsent, Hq in H;
      destruct (Qeq_bool q 0); injection H as <- <- <-;
      unfold transmitted, order_status; simpl;
      by rewrite !lookup_insert_eq.
Qed.

End Clock.
End oms_operations.

Module oms_rate.
Import oms.
Local Open Scope Q_scope.

Section Clock.
Variable clock : nat -> Q.

Lemma prune_rate w r :
  throttle.prune clock (set_API_RATE w r) = set_API_RATE (throttle.prune clock w) r.
Proof.
  unfold throttle.prune. simpl.
  by destruct (throttle.prune_from clock (_calls w) (reads w)).
Qed.

Lemma wait_rate fuel rate w r :
  throttle.wait clock fuel rate (set_API_RATE w r)
  = (fun w' => set_API_RATE w' r) <$> throttle.wait clock fuel rate w.
Proof.
  revert w. induction fuel as [|fuel IH]; intros w; simpl;
    unfold throttle.blocked; simpl;
    destruct (rate <=? Z.of_nat (length (_calls w)))%Z; try done.
  by rewrite prune_rate, IH.
Qed.

(** The wrapper never reads the global [API_RATE]: when the wrapped function
    does not read it either, changing the global changes nothing but the
    global. *)
Lemma throttle_rate rate (func : world * Oms -> (world * Oms) * option exn)
    fuel w self r :
  (forall w1 s1, func (set_API_RATE w1 r, s1) = rerate r (func (w1, s1))) ->
  throttle.throttle clock rate func fuel (set_API_RATE w r, self)
  = rerate r <$> throttle.throttle clock rate func fuel (w, self).
Proof.
  intros Hf. unfold throttle.throttle. simpl.
  rewrite prune_rate, wait_rate.
  destruct (throttle.wait clock fuel rate (throttle.prune clock w)) as [w1|];
    [|done]. simpl. rewrite Hf.
  destruct (func (w1, self)) as [[w2 s2] [e|]]; done.
Qed.

Lemma connect_body_rate w self r :
  connect_body (set_API_RATE w r, self) = rerate r (connect_body (w, self)).
Proof. done. Qed.

Lemma create_order_body_rate kwargs w self r :
  create_order_body clock kwargs (set_API_RATE w r, self)
  = rerate r (create_order_body clock kwargs (w, self)).
Proof.
  unfold create_order_body, timestamp, throttle.time. simpl.
  destruct (p_orderLinkId kwargs); simpl;
    destruct (_position_event self); simpl; try done;
    destruct (send _ _ _); try done;
    destruct (p_qty kwargs) as [q|]; try done; by destruct (Qeq_bool q 0).
Qed.

Lemma amend_order_body_rate kwargs w self r :
  amend_order_body clock kwargs (set_API_RATE w r, self)
  = rerate r (amend_order_body clock kwargs (w, self)).
Proof.
  unfold amend_order_body, timestamp, throttle.time. simpl.
  destruct (send _ _ _); try done.
  destruct (p_qty kwargs) as [q|]; try done. destruct (Qeq_bool q 0); try done.
  by destruct (p_orderLinkId kwargs).
Qed.

Lemma cancel_order_body_rate link w self r :
  cancel_order_body clock link (set_API_RATE w r, self)
  = rerate r (cancel_order_body clock link (w, self)).
Proof.
  unfold cancel_order_body, timestamp, throttle.time. simpl.
  destruct (_active_orders self !! link); try done. by destruct (send _ _ _).
Qed.

End Clock.
End oms_rate.

Module oms_operation_claims.
Import oms oms_operations oms_rate.
Local Open Scope Q_scope.

(** C1, as stated, fails: with the signal clear, a create with quantity zero
    is transmitted on the trade channel, and only then is its status set to
    "Unsubmitted". *)
Lemma zero_quantity_order_is_transmitted :
  _position_event connected = false /\
  p_qty zero_order = Some 0 /\
  transmitted connected = [] /\
  (fun res => (transmitted (snd (fst res)),
               order_status (snd (fst res)) "UUID1234"))
    <$> create_order tick_clock zero_order 0 (boot, connected)
  = Some ([create_request connected zero_order "0"], inr "Unsubmitted").
Proof. repeat split; vm_compute; reflexivity. Qed.

(** C1, amended.  For every call of [create_order] that returns: when the
    position-update signal is set, the status of the order is "Unsubmitted"
    and nothing is transmitted; when the signal is clear (the trade channel
    being open and a quantity given), a create request stamped with a clock
    reading of the call is transmitted whatever the quantity, and the status
    is "Unsubmitted" exactly when the quantity is zero. *)
Theorem create_order_transmission (clock : nat -> Q) (kwargs : params)
    (fuel : nat) (w w' : world) (self self' : Oms) (e : option exn) :
  create_order clock kwargs fuel (w, self) = Some ((w', self'), e) ->
  (_position_event self = true ->
     e = None /\
     order_status self' (link_of self kwargs) = inr "Unsubmitted" /\
     transmitted self' = transmitted self) /\
  (_position_event self = false ->
     forall sent q,
       _websockets self !! "trade" = Some sent ->
       p_qty kwargs = Some q ->
       e = None /\
       (exists r, (reads w <= r)%nat /\
          transmitted self'
          = sent ++ [create_request self kwargs (pretty (py_int (clock r * 1000)))]) /\
       order_status self' (link_of self kwargs)
       = inr (if Qeq_bool q 0 then "Unsubmitted" else "")).
Proof.
  intros H. apply throttle_returns in H as (w1 & w2 & Hr & H).
  apply create_order_body_cases in H as [Hset Hclear]. split; [done|].
  intros Hev sent q Hsent Hq.
  destruct (Hclear Hev sent q Hsent Hq) as (? & ? & ?).
  repeat split; [done| |done]. by exists (reads w1).
Qed.

Lemma create_order_transmission_witness :
  exists w' self' e,
    create_order tick_clock zero_order 0 (boot, connected) = Some ((w', self'), e) /\
    (_position_event connected = true ->
     e = None /\
     order_status self' (link_of connected zero_order) = inr "Unsubmitted" /\
     transmitted self' = transmitted connected) /\
    (_position_event connected = false ->
     forall sent q,
       _websockets connected !! "trade" = Some sent ->
       p_qty zero_order = Some q ->
       e = None /\
       (exists r, (reads boot <= r)%nat /\
          transmitted self'
          = sent ++ [create_request connected zero_order
                       (pretty (py_int (tick_clock r * 1000)))]) /\
       order_status self' (link_of connected zero_order)
       = inr (if Qeq_bool q 0 then "Unsubmitted" else "")).
Proof.
  eexists _, _, _. split; [vm_compute; reflexivity|].
  eapply (create_order_transmission tick_clock zero_order 0 boot _ connected).
  vm_compute. reflexivity.
Defined.

(** C3, as stated, fails: after [kill] the link-id is still in the active
    set, the trade channel is gone, and [cancel_order] returns without an
    exception having transmitted nothing (the lookup of the channel sits in
    the same [try]). *)
Lemma cancel_order_on_closed_channel_sends_nothing :
  _active_orders (kill tracking) !! "UUID1234" = Some opened /\
  _websockets (kill tracking) !! "trade" = None /\
  (fun res => (transmitted (snd (fst res)), snd res))
    <$> cancel_order tick_clock "UUID1234" 0 (boot, kill tracking)
  = Some ([], None).
Proof. repeat split; vm_compute; reflexivity. Qed.

(** C3, amended.  For every tracked symbol and category and every link-id in
    the active-order set, [cancel_order], when the trade channel is open,
    transmits a cancel request whose args are exactly category "linear",
    symbol "ADAUSDT" and the venue's order id stored for the link-id; the
    symbol and category of the engine do not occur in it. *)
Theorem cancel_order_literals (clock : nat -> Q) (link : string) (fuel : nat)
    (w w' : world) (self self' : Oms) (e : option exn)
    (o : order) (sent : list request) :
  cancel_order clock link fuel (w, self) = Some ((w', self'), e) ->
  _active_orders self !! link = Some o ->
  _websockets self !! "trade" = Some sent ->
  e = None /\
  exists ts,
    transmitted self'
    = sent ++ [{| X_BAPI_TIMESTAMP := ts; X_BAPI_RECV_WINDOW := "8000";
                  op := "order.cancel";
                  args := [{| p_orderLinkId := None; p_qty := None;
                              p_fields := {[ "category" := "linear";
                                             "symbol" := "ADAUSDT";
                                             "orderId" := orderId o ]} |}] |}].
Proof.
  intros H Hact Hsent. apply throttle_returns in H as (w1 & w2 & _ & H).
  unfold cancel_order_body, timestamp, throttle.time, send in H.
  rewrite Hact in H. simpl in H. rewrite Hsent in H.
  injection H as <- <- <-. split; [done|].
  eexists. unfold transmitted. simpl. rewrite lookup_insert_eq. simpl.
  reflexivity.
Qed.

Lemma cancel_order_literals_witness :
  exists w' self' e,
    cancel_order tick_clock "UUID1234" 0 (boot, tracking) = Some ((w', self'), e) /\
    _symbol tracking = "BTCUSDT" /\
    e = None /\
    exists ts,
      transmitted self'
      = [] ++ [{| X_BAPI_TIMESTAMP := ts; X_BAPI_RECV_WINDOW := "8000";
                  op := "order.cancel";
                  args := [{| p_orderLinkId := None; p_qty := None;
                              p_fields := {[ "category" := "linear";
                                             "symbol" := "ADAUSDT";
                                             "orderId" := orderId opened ]} |}] |}].
Proof.
  eexists _, _, _. split; [vm_compute; reflexivity|]. split; [reflexivity|].
  eapply (cancel_order_literals tick_clock "UUID1234" 0 boot _ tracking);
    vm_compute; reflexivity.
Defined.

(** C4, at an unknown link-id.  [cancel_order] returns without an exception
    and leaves the engine as it was, but [order_status] raises [KeyError]
    where the specification promises an empty result. *)
Theorem unknown_link_id_lookup_raises :
  _order_status fresh !! "UUID0000" = None /\
  _active_orders fresh !! "UUID0000" = None /\
  (fun res => (snd (fst res), snd res))
    <$> cancel_order tick_clock "UUID0000" 0 (boot, fresh)
  = Some (fresh, None) /\
  order_status fresh "UUID0000" = inl KeyError.
Proof. repeat split; vm_compute; reflexivity. Qed.

End oms_operation_claims.

(** ** Session metrics *)

Module sessionacc_metrics.
Import sessionacc sessionacc_facts sessionacc_batches.
Local Open Scope Q_scope.

Lemma py_max_l (a b : Q) : a <= py_max a b.
Proof.
  unfold py_max. destruct (Qle_bool b a) eqn:E; [lra|].
  apply Qle_bool_false in E. lra.
Qed.

Lemma py_max_r (a b : Q) : b <= py_max a b.
Proof.
  unfold py_max. destruct (Qle_bool b a) eqn:E; [|lra].
  by apply Qle_bool_iff in E.
Qed.

(** What one iteration of the matching loop does to the five counters. *)
Lemma match_once_metrics self self' :
  match_once self = Some self' ->
  _max_pnl self <= _max_pnl self' /\
  _drawdown self <= _drawdown self' /\
  _pnl self' <= _max_pnl self' /\
  _max_pnl self' - _pnl self' <= _drawdown self' /\
  (_n_matched self' = _n_matched self + 1)%Z /\
  (_wins self <= _wins self' <= _wins self + 1)%Z.
Proof.
  unfold match_once.
  destruct (_buys self) as [|b bs]; [done|].
  destruct (_sells self) as [|s ss]; [done|].
  intros [= <-]. simpl.
  repeat split; try apply py_max_l; try apply py_max_r; try done;
    destruct (Qle_bool 0 _); lia.
Qed.

Lemma append_fill_metrics self e :
  _pnl (append_fill self e) = _pnl self /\
  _max_pnl (append_fill self e) = _max_pnl self /\
  _drawdown (append_fill self e) = _drawdown self /\
  _wins (append_fill self e) = _wins self /\
  _n_matched (append_fill self e) = _n_matched self.
Proof. unfold append_fill. by destruct (String.eqb _ _). Qed.

Lemma append_fills_metrics data self :
  _pnl (fold_left append_fill data self) = _pnl self /\
  _max_pnl (fold_left append_fill data self) = _max_pnl self /\
  _drawdown (fold_left append_fill data self) = _drawdown self /\
  _wins (fold_left append_fill data self) = _wins self /\
  _n_matched (fold_left append_fill data self) = _n_matched self.
Proof.
  revert self. induction data as [|e data IH]; intros self; simpl; [done|].
  destruct (IH (append_fill self e)) as (-> & -> & -> & -> & ->).
  apply append_fill_metrics.
Qed.

Lemma match_loop_monotone fuel self :
  _max_pnl self <= _max_pnl (match_loop fuel self) /\
  _drawdown self <= _drawdown (match_loop fuel self).
Proof.
  revert self. induction fuel as [|fuel IH]; intros self; simpl; [lra|].
  destruct (match_once self) as [self'|] eqn:E; [|lra].
  apply match_once_metrics in E as (? & ? & _). destruct (IH self'). lra.
Qed.

Lemma match_loop_peaked fuel self :
  peaked self -> peaked (match_loop fuel self).
Proof.
  revert self. induction fuel as [|fuel IH]; intros self Hp; simpl; [done|].
  destruct (match_once self) as [self'|] eqn:E; [|done].
  apply IH. apply match_once_metrics in E as (? & ? & ? & ? & _).
  destruct Hp as (? & ? & ? & ?). unfold peaked. repeat split; lra.
Qed.

(** The loop makes at most [fuel] matches, and every win is a match. *)
Lemma match_loop_counters fuel self :
  (_n_matched self <= _n_matched (match_loop fuel self)
   <= _n_matched self + Z.of_nat fuel)%Z /\
  (0 <= _wins (match_loop fuel self) - _wins self
   <= _n_matched (match_loop fuel self) - _n_matched self)%Z.
Proof.
  revert self. induction fuel as [|fuel IH]; intros self; simpl; [lia|].
  destruct (match_once self) as [self'|] eqn:E; [|lia].
  apply match_once_metrics in E as (_ & _ & _ & _ & ? & ?).
  destruct (IH self'). lia.
Qed.

Lemma process_peaked self data : peaked self -> peaked (process self data).
Proof.
  intros Hp. unfold process, match_all. apply match_loop_peaked.
  unfold peaked.
  by destruct (append_fills_metrics
                 (sorted execTime (List.filter (relevant self) data)) self)
    as (-> & -> & -> & _).
Qed.

Lemma on_exec_message_peaked self msg :
  peaked self -> peaked (fst (_on_exec_message self msg)).
Proof.
  intros Hp. destruct msg as [topic data|[]|]; simpl; try done.
  destruct (_ && _); simpl; [by apply process_peaked|done].
Qed.

Lemma deliver_peaked batches self :
  peaked self -> peaked (deliver self batches).
Proof.
  revert self. induction batches as [|data batches IH]; intros self Hp; [done|].
  rewrite deliver_cons. by apply IH, on_exec_message_peaked.
Qed.

Lemma length_sorted {A : Type} (key : A -> Z) (l : list A) :
  length (sorted key l) = length l.
Proof.
  induction l as [|x l IH]; simpl; [done|].
  fold (sorted key l). by rewrite length_insert_by, IH.
Qed.

Lemma append_fills_measure data self :
  measure (fold_left append_fill data self) = (measure self + length data)%nat.
Proof.
  revert self. induction data as [|e data IH]; intros self; simpl; [lia|].
  rewrite IH. unfold append_fill, measure.
  destruct (String.eqb _ _); simpl; rewrite length_app; simpl; lia.
Qed.

Lemma process_counters self data :
  (0 <= _wins (process self data) - _wins self
   <= _n_matched (process self data) - _n_matched self)%Z /\
  (0 <= _n_matched (process self data) - _n_matched self
   <= Z.of_nat (measure self + length data))%Z.
Proof.
  unfold process, match_all.
  set (queued := fold_left append_fill _ self).
  destruct (match_loop_counters (measure queued) queued) as [Hn Hw].
  destruct (append_fills_metrics
              (sorted execTime (List.filter (relevant self) data)) self)
    as (_ & _ & _ & Ew & En).
  fold queued in Ew, En. rewrite Ew, En in *. split; [lia|].
  assert (measure queued <= measure self + length data)%nat; [|lia].
  subst queued. rewrite append_fills_measure, length_sorted.
  pose proof (throttle_facts.length_filter_le (relevant self) data). lia.
Qed.

End sessionacc_metrics.

Module filter_facts.
Import sessionacc sessionacc_facts.
Local Open Scope Q_scope.

Lemma filter_none {A : Type} (f : A -> bool) (l : list A) :
  existsb f l = false -> List.filter f l = [].
Proof.
  induction l as [|x l IH]; simpl; [done|].
  intros [-> E]%orb_false_iff. by apply IH.
Qed.

Lemma filter_filter {A : Type} (f : A -> bool) (l : list A) :
  List.filter f (List.filter f l) = List.filter f l.
Proof.
  induction l as [|x l IH]; simpl; [done|].
  destruct (f x) eqn:E; simpl; by rewrite ?E, IH.
Qed.

Lemma existsb_filter {A : Type} (f : A -> bool) (l : list A) :
  existsb f (List.filter f l) = existsb f l.
Proof.
  induction l as [|x l IH]; simpl; [done|].
  destruct (f x) eqn:E; simpl; by rewrite ?E, IH.
Qed.

End filter_facts.

Module sessionacc_extra.
Import sessionacc sessionacc_facts sessionacc_batches sessionacc_metrics
  filter_facts.
Local Open Scope Q_scope.

(** X1. Whatever message the handler receives, in whatever state, the peak
    PnL and the drawdown it leaves are not smaller than before. *)
Theorem peak_and_drawdown_never_decrease (self : SessionAcc) (msg : message) :
  max_pnl self <= max_pnl (fst (_on_exec_message self msg)) /\
  drawdown self <= drawdown (fst (_on_exec_message self msg)).
Proof.
  unfold max_pnl, drawdown.
  destruct msg as [topic data|[]|]; simpl; try lra.
  destruct (_ && _); simpl; [|lra].
  unfold process, match_all.
  set (queued := fold_left append_fill _ self).
  destruct (match_loop_monotone (measure queued) queued).
  destruct (append_fills_metrics
              (sorted execTime (List.filter (relevant self) data)) self)
    as (_ & E1 & E2 & _).
  fold queued in E1, E2. rewrite E1, E2 in *. done.
Qed.

(** X2. After any sequence of batches fed to a fresh engine, the peak is at
    least the PnL and at least 0, and the drawdown is at least the distance
    from the peak to the PnL, hence at least 0. *)
Theorem peak_bounds_pnl (symbol category : string) (maker taker : Q)
    (batches : list (list execution)) :
  pnl (deliver (init symbol category maker taker) batches)
  <= max_pnl (deliver (init symbol category maker taker) batches) /\
  0 <= max_pnl (deliver (init symbol category maker taker) batches) /\
  max_pnl (deliver (init symbol category maker taker) batches)
  - pnl (deliver (init symbol category maker taker) batches)
  <= drawdown (deliver (init symbol category maker taker) batches) /\
  0 <= drawdown (deliver (init symbol category maker taker) batches).
Proof.
  apply (deliver_peaked batches (init symbol category maker taker)).
  unfold peaked. simpl. repeat split; lra.
Qed.

(** X3. After any sequence of batches fed to a fresh engine, the wins are
    between 0 and the matched count, so the win rate, when there is one,
    lies between 0 and 1. *)
Theorem win_rate_between_0_and_1 (symbol category : string) (maker taker : Q)
    (batches : list (list execution)) :
  (0 <= _wins (deliver (init symbol category maker taker) batches)
   <= _n_matched (deliver (init symbol category maker taker) batches))%Z /\
  forall r,
    win_rate (deliver (init symbol category maker taker) batches) = Some r ->
    0 <= r <= 1.
Proof.
  assert (Hc : forall bs self,
            (0 <= _wins self <= _n_matched self)%Z ->
            (0 <= _wins (deliver self bs) <= _n_matched (deliver self bs))%Z).
  { induction bs as [|data bs IH]; intros self Hs; [done|].
    rewrite deliver_cons. apply IH. simpl. rewrite String.eqb_refl. simpl.
    destruct (existsb _ _); simpl; [|done].
    destruct (process_counters self data). lia. }
  specialize (Hc batches (init symbol category maker taker) ltac:(simpl; lia)).
  split; [done|]. intros r. unfold win_rate, py_truediv.
  destruct (Z.eqb_spec (_n_matched (deliver (init symbol category maker taker)
                                      batches)) 0) as [|Hn]; [done|].
  intros [= <-].
  assert (0 < inject_Z (_n_matched (deliver (init symbol category maker taker)
                                      batches))).
  { rewrite <- (Zlt_Qlt 0). lia. }
  split.
  - apply Qle_shift_div_l; [done|]. rewrite Qmult_0_l.
    rewrite <- (Zle_Qle 0). lia.
  - apply Qle_shift_div_r; [done|]. rewrite Qmult_1_l.
    rewrite <- Zle_Qle. lia.
Qed.

(** X5. Executions of another symbol or category never reach the queues: a
    message handled with them is handled as if they had been removed. *)
Theorem foreign_executions_ignored (self : SessionAcc) (topic : string)
    (data : list execution) :
  _on_exec_message self (Topic topic data)
  = _on_exec_message self (Topic topic (List.filter (relevant self) data)).
Proof.
  simpl. rewrite existsb_filter. unfold process. by rewrite filter_filter.
Qed.

(** X6. A batch on the subscribed topic that holds a tracked execution runs
    the matching loop to its end: it leaves one of the two queues empty,
    after at most as many matches as there are fills queued before it plus
    executions in it, and every win it counts is one of those matches. *)
Theorem matches_per_batch_bounded (self : SessionAcc) (data : list execution) :
  existsb (relevant self) data = true ->
  (_buys (fst (_on_exec_message self (Topic (_topic self) data))) = [] \/
   _sells (fst (_on_exec_message self (Topic (_topic self) data))) = []) /\
  (0 <= _n_matched (fst (_on_exec_message self (Topic (_topic self) data)))
        - _n_matched self
   <= Z.of_nat (length (_buys self) + length (_sells self) + length data))%Z /\
  (0 <= _wins (fst (_on_exec_message self (Topic (_topic self) data)))
        - _wins self
   <= _n_matched (fst (_on_exec_message self (Topic (_topic self) data)))
      - _n_matched self)%Z.
Proof.
  intros Hany. simpl. rewrite String.eqb_refl, Hany. simpl. split.
  - apply match_once_None. unfold process. apply match_all_terminal.
  - destruct (process_counters self data) as [Hw Hn].
    unfold measure in Hn. lia.
Qed.

Lemma matches_per_batch_bounded_witness :
  (_buys (fst (_on_exec_message fresh_engine
                 (Topic (_topic fresh_engine) presorted))) = [] \/
   _sells (fst (_on_exec_message fresh_engine
                  (Topic (_topic fresh_engine) presorted))) = []) /\
  (0 <= _n_matched (fst (_on_exec_message fresh_engine
                           (Topic (_topic fresh_engine) presorted)))
        - _n_matched fresh_engine
   <= Z.of_nat (length (_buys fresh_engine) + length (_sells fresh_engine)
                + length presorted))%Z /\
  (0 <= _wins (fst (_on_exec_message fresh_engine
                      (Topic (_topic fresh_engine) presorted)))
        - _wins fresh_engine
   <= _n_matched (fst (_on_exec_message fresh_engine
                         (Topic (_topic fresh_engine) presorted)))
      - _n_matched fresh_engine)%Z.
Proof.
  apply (matches_per_batch_bounded fresh_engine presorted). reflexivity.
Defined.

(** X7. A queued buy of quantity zero facing a sell of positive quantity is
    matched for quantity zero: it is counted as a matched trade and as a win,
    the PnL keeps its value, the buy leaves its queue and the sell stays. *)
Theorem zero_quantity_fill_counts_as_win (self : SessionAcc) (b s : fill)
    (bs ss : list fill) :
  _buys self = b :: bs -> _sells self = s :: ss ->
  qty b == 0 -> 0 < qty s ->
  exists self',
    match_once self = Some self' /\
    _n_matched self' = (_n_matched self + 1)%Z /\
    _wins self' = (_wins self + 1)%Z /\
    pnl self' == pnl self /\
    _buys self' = bs /\
    exists s', _sells self' = s' :: ss /\ qty s' == qty s.
Proof.
  intros Hb Hs Hz Hpos. unfold match_once. rewrite Hb, Hs.
  eexists. split; [reflexivity|]. unfold pnl. simpl.
  assert (Hmin : py_min (qty b) (qty s) = qty b).
  { unfold py_min. destruct (Qle_bool (qty b) (qty s)) eqn:E; [done|].
    apply Qle_bool_false in E. lra. }
  rewrite Hmin.
  assert (Hnet : net_profit self b s (qty b) == 0).
  { unfold net_profit, fee.
    destruct (fill_isMaker b), (fill_isMaker s); rewrite Hz; lra. }
  assert (Hwin : Qle_bool 0 (net_profit self b s (qty b)) = true).
  { apply Qle_bool_iff. lra. }
  rewrite Hwin. repeat split.
  - lra.
  - by apply consume_all.
  - unfold consume. destruct (Qeq_bool (qty s - qty b) 0) eqn:E.
    + apply Qeq_bool_iff in E. lra.
    + eexists. split; [reflexivity|]. simpl. lra.
Qed.

Lemma zero_quantity_fill_counts_as_win_witness :
  exists self',
    match_once zero_fill_state = Some self' /\
    _n_matched self' = 1%Z /\
    _wins self' = 1%Z /\
    pnl self' == pnl zero_fill_state /\
    _buys self' = [] /\
    exists s', _sells self' = s' :: [] /\ qty s' == 1.
Proof.
  apply (zero_quantity_fill_counts_as_win zero_fill_state
           {| price := 100; qty := 0; fill_isMaker := true |}
           {| price := 110; qty := 1; fill_isMaker := false |} [] []);
    reflexivity.
Defined.

End sessionacc_extra.

(** ** Rate limit over any number of calls *)

Module throttle_rate.
Import throttle throttle_facts.
Local Open Scope Q_scope.

Section Clock.
Variable clock : nat -> Q.
Hypothesis clock_monotone : monotone clock.

Lemma prune_from_sublist calls n :
  fst (prune_from clock calls n) `sublist_of` calls.
Proof.
  revert n. induction calls as [|t calls IH]; intros n; simpl; [done|].
  specialize (IH (S n)). destruct (prune_from clock calls (S n)). simpl in *.
  destruct (Qle_bool _ _); by constructor.
Qed.

Lemma prune_sublist w : _calls (prune clock w) `sublist_of` _calls w.
Proof.
  unfold prune. pose proof (prune_from_sublist (_calls w) (reads w)) as H.
  by destruct (prune_from clock (_calls w) (reads w)).
Qed.

(** The world a returning call leaves: its newest timestamp is the last
    clock read, and it holds at most [rate] timestamps. *)
Lemma call_leaves rate d fuel w w' :
  call clock rate d fuel w = Some w' ->
  last (_calls w') = Some (stamp clock w') /\
  (Z.of_nat (length (_calls w')) <= rate)%Z /\
  (reads w < reads w')%nat.
Proof.
  unfold call, throttle. simpl.
  destruct (wait clock fuel rate (prune clock w)) as [w1|] eqn:Ew; [|done].
  intros [= <-]. simpl. unfold stamp. simpl.
  pose proof (wait_unblocked clock _ _ _ _ Ew).
  pose proof (wait_next clock _ _ _ _ Ew) as Hn. rewrite prune_next in Hn.
  rewrite last_snoc, length_app. simpl. repeat split; lia.
Qed.

Lemma calls_in_a_row_length rate ds w ws :
  calls_in_a_row clock rate ds w = Some ws -> length ws = length ds.
Proof.
  revert w ws. induction ds as [|[d fuel] ds IH]; intros w ws; simpl.
  - by intros [= <-].
  - destruct (call clock rate d fuel w) as [w1|]; [|done].
    destruct (calls_in_a_row clock rate ds w1) as [ws'|] eqn:E; [|done].
    intros [= <-]. simpl. f_equal. by eapply IH.
Qed.

Lemma calls_in_a_row_leaves rate ds w ws :
  calls_in_a_row clock rate ds w = Some ws ->
  Forall (fun w' => last (_calls w') = Some (stamp clock w') /\
                    (Z.of_nat (length (_calls w')) <= rate)%Z /\
                    (reads w < reads w')%nat /\
                    clock (reads w) <= stamp clock w') ws.
Proof.
  revert w ws. induction ds as [|[d fuel] ds IH]; intros w ws; simpl.
  - intros [= <-]. constructor.
  - destruct (call clock rate d fuel w) as [w1|] eqn:Ec; [|done].
    destruct (calls_in_a_row clock rate ds w1) as [ws'|] eqn:E; [|done].
    intros [= <-]. apply call_leaves in Ec as (? & ? & ?).
    constructor.
    + repeat split; try done. apply clock_monotone. lia.
    + eapply Forall_impl; [by apply IH|]. simpl.
      intros w' (? & ? & ? & ?). repeat split; try done; [lia|].
      pose proof (clock_monotone (reads w) (reads w1) ltac:(lia)). lra.
Qed.

(** Timestamps held in the window stay there through the calls together
    with the timestamps the calls record, or one of all those has expired at
    a read made before the end. *)
Lemma calls_in_a_row_keep rate ds w ws l :
  calls_in_a_row clock rate ds w = Some ws ->
  l `sublist_of` _calls w ->
  (l ++ map (stamp clock) ws) `sublist_of` _calls (default w (last ws)) \/
  exists r, (r < reads (default w (last ws)))%nat /\
            expired clock r (l ++ map (stamp clock) ws).
Proof.
  revert w ws l. induction ds as [|[d fuel] ds IH]; intros w ws l; simpl.
  - intros [= <-] Hl. left. simpl. by rewrite app_nil_r.
  - destruct (call clock rate d fuel w) as [w1|] eqn:Ec; [|done].
    destruct (calls_in_a_row clock rate ds w1) as [ws'|] eqn:E; [|done].
    intros [= <-] Hl.
    pose proof (calls_in_a_row_leaves _ _ _ _ E) as Hleave.
    assert (Hlast : (reads w1 <= reads (default w1 (last ws')))%nat).
    { destruct (last ws') as [wn|] eqn:El; simpl; [|lia].
      apply last_Some_elem_of in El.
      pose proof (proj1 (Forall_forall _ _) Hleave wn El) as (_ & _ & ? & _). lia. }
    assert (Hdef : default w (last (w1 :: ws')) = default w1 (last ws')).
    { rewrite last_cons. by destruct (last ws'). }
    rewrite Hdef. simpl.
    pose proof (call_leaves _ _ _ _ _ Ec) as (Els & _ & Hr).
    apply (call_returns clock clock_monotone) in Ec
      as (kept & r & Ek & _ & Er & _ & Keep).
    assert (Hs : stamp clock w1 = clock r) by (unfold stamp; by rewrite Er).
    destruct (Keep l Hl) as [Hk|He].
    + destruct (IH w1 ws' (l ++ [clock r]) E) as [Hsub|(r' & Hr' & He)].
      * rewrite Ek. by apply sublist_app.
      * left. rewrite Hs. by rewrite <- app_assoc in Hsub.
      * right. exists r'. split; [done|]. rewrite Hs.
        by rewrite <- app_assoc in He.
    + right. exists r. split; [lia|]. unfold expired in *.
      apply Exists_app. by left.
Qed.

(** Of [rate + 1] calls in a row the last records its timestamp more than a
    second after the first. *)
Lemma calls_in_a_row_span rate ds w0 ws :
  (0 <= rate)%Z ->
  calls_in_a_row clock rate ds w0 = Some ws ->
  Z.of_nat (length ds) = (rate + 1)%Z ->
  exists w1 wn t1 tn,
    head ws = Some w1 /\ last ws = Some wn /\
    last (_calls w1) = Some t1 /\ last (_calls wn) = Some tn /\
    t1 + 1 < tn.
Proof.
  pose proof clock_monotone as Hmono. intros Hrate Hrun Hlen.
  destruct ds as [|[d fuel] ds]; [simpl in Hlen; lia|]. simpl in Hrun, Hlen.
  destruct (call clock rate d fuel w0) as [w1|] eqn:Ec; [|done].
  destruct (calls_in_a_row clock rate ds w1) as [ws'|] eqn:E; [|done].
  injection Hrun as <-.
  pose proof (calls_in_a_row_length _ _ _ _ E) as Hlen'.
  pose proof (calls_in_a_row_leaves _ _ _ _ E) as Hleave.
  pose proof (call_leaves _ _ _ _ _ Ec) as (Els & Hcap & _).
  destruct (last ws') as [wn|] eqn:El.
  2:{ apply last_None in El. subst ws'. simpl in Hlen'.
      destruct (_calls w1); [done|]. simpl in Hcap. lia. }
  pose proof (proj1 (Forall_forall _ _) Hleave wn (last_Some_elem_of _ _ El))
    as (Eln & Hcapn & Hrn & _).
  exists w1, wn, (stamp clock w1), (stamp clock wn).
  split; [done|]. split; [by rewrite last_cons, El|].
  split; [done|]. split; [done|].
  destruct (calls_in_a_row_keep _ _ _ _ [stamp clock w1] E)
    as [Hsub|(r & Hr & He)].
  - destruct (_calls w1) as [|t l] using rev_ind; [done|].
    rewrite last_snoc in Els. injection Els as ->.
    by apply sublist_inserts_l.
  - rewrite El in Hsub. simpl in Hsub. apply sublist_length in Hsub.
    simpl in Hsub. rewrite length_map in Hsub. lia.
  - rewrite El in Hr. simpl in Hr. unfold expired in He.
    apply Exists_exists in He as (t & Ht & Hlt).
    assert (Hge : stamp clock w1 <= t).
    { apply elem_of_cons in Ht as [->|Ht]; [lra|].
      apply list_elem_of_fmap in Ht as (w' & -> & Hw').
      pose proof (proj1 (Forall_forall _ _) Hleave w' Hw') as (_ & _ & _ & Hc).
      unfold stamp at 1.
      pose proof (Hmono (pred (reads w1)) (reads w1) ltac:(lia)). lra. }
    pose proof (Hmono r (pred (reads wn)) ltac:(lia)) as Hle.
    unfold stamp at 2. lra.
Qed.

End Clock.
End throttle_rate.

Module throttle_extra.
Import throttle throttle_facts throttle_rate.
Local Open Scope Q_scope.

(** X8. With a rate of zero or less the wrapper never calls its function:
    the loop condition [len(_calls) >= rate] holds whatever the window holds,
    so the call is still blocked after any number of iterations. *)
Theorem nonpositive_rate_blocks_forever {S : Type} (clock : nat -> Q)
    (rate : Z) (func : world * S -> (world * S) * option exn)
    (fuel : nat) (ws : world * S) :
  (rate <= 0)%Z -> throttle clock rate func fuel ws = None.
Proof.
  intros Hrate. unfold throttle.
  assert (Hw : forall w, wait clock fuel rate w = None).
  { induction fuel as [|fuel IH]; intros w; simpl; unfold blocked;
      destruct (Z.leb_spec rate (Z.of_nat (length (_calls w)))); try lia; done. }
  by rewrite Hw.
Qed.

Lemma nonpositive_rate_blocks_forever_witness :
  throttle tenth_clock 0 (fun ws : world * unit => (ws, None)) 100 (start, tt)
  = None.
Proof.
  apply (nonpositive_rate_blocks_forever tenth_clock 0
           (fun ws : world * unit => (ws, None)) 100 (start, tt)).
  lia.
Defined.

(** X9. A throttled call that returns leaves at most [rate] timestamps in
    [_calls], the newest of them being the one it recorded last. *)
Theorem window_holds_at_most_rate (clock : nat -> Q) (rate : Z)
    (d fuel : nat) (w w' : world) :
  call clock rate d fuel w = Some w' ->
  (Z.of_nat (length (_calls w')) <= rate)%Z /\
  last (_calls w') = Some (clock (pred (reads w'))).
Proof.
  intros H. apply call_leaves in H as (? & ? & _). by split.
Qed.

Lemma window_holds_at_most_rate_witness :
  (Z.of_nat (length (_calls (after 4))) <= 3)%Z /\
  last (_calls (after 4)) = Some (tenth_clock (pred (reads (after 4)))).
Proof.
  apply (window_holds_at_most_rate tenth_clock 3 0 2 (after 3) (after 4)).
  vm_compute. reflexivity.
Defined.

(** X10. A call that finds fewer than [rate] timestamps recorded is not held
    back: it returns after its single pruning pass, having read the clock
    once per recorded timestamp, [d] times in its function and once more for
    its own timestamp. *)
Theorem below_rate_is_not_delayed (clock : nat -> Q) (rate : Z) (d : nat)
    (w : world) :
  (Z.of_nat (length (_calls w)) < rate)%Z ->
  exists w',
    call clock rate d 0 w = Some w' /\
    reads w' = S (d + (reads w + length (_calls w))).
Proof.
  intros Hlt. unfold call, throttle. simpl.
  pose proof (sublist_length _ _ (prune_sublist clock w)) as Hl.
  unfold blocked.
  destruct (Z.leb_spec rate (Z.of_nat (length (_calls (prune clock w)))));
    [lia|].
  eexists. split; [reflexivity|]. simpl. by rewrite prune_next.
Qed.

Lemma below_rate_is_not_delayed_witness :
  exists w',
    call tenth_clock 3 0 0 (after 2) = Some w' /\
    reads w' = S (0 + (reads (after 2) + length (_calls (after 2)))).
Proof.
  apply (below_rate_is_not_delayed tenth_clock 3 0 (after 2)).
  vm_compute. reflexivity.
Defined.

(** X11. The rate limit for any rate that is not negative: of [rate + 1]
    throttled calls made one after the other under a clock that never runs
    backwards, the last records its timestamp more than one second after the
    first recorded its own. *)
Theorem rate_plus_one_calls_span_a_second (clock : nat -> Q) (rate : Z)
    (ds : list (nat * nat)) (w0 : world) (ws : list world) :
  monotone clock ->
  (0 <= rate)%Z ->
  calls_in_a_row clock rate ds w0 = Some ws ->
  Z.of_nat (length ds) = (rate + 1)%Z ->
  exists w1 wn t1 tn,
    head ws = Some w1 /\ last ws = Some wn /\
    last (_calls w1) = Some t1 /\ last (_calls wn) = Some tn /\
    t1 + 1 < tn.
Proof.
  intros Hmono. by apply calls_in_a_row_span.
Qed.

Lemma rate_plus_one_calls_span_a_second_witness :
  exists w1 wn t1 tn,
    head [after 1; after 2; after 3; after 4] = Some w1 /\
    last [after 1; after 2; after 3; after 4] = Some wn /\
    last (_calls w1) = Some t1 /\ last (_calls wn) = Some tn /\
    t1 + 1 < tn.
Proof.
  apply (rate_plus_one_calls_span_a_second tenth_clock 3
           [(0, 2); (0, 2); (0, 2); (0, 2)]%nat start).
  - intros n m Hnm. unfold tenth_clock, Qle. simpl. lia.
  - lia.
  - vm_compute. reflexivity.
  - reflexivity.
Defined.

End throttle_extra.

(** ** What the order operations leave alone *)

Module oms_frames.
Import oms oms_operations.
Local Open Scope Q_scope.

Section Clock.
Variable clock : nat -> Q.

Lemma connect_body_frame w self w' self' e :
  connect_body (w, self) = ((w', self'), e) ->
  untouched self self' /\ e = None /\ _calls w' = _calls w /\
  _order_status self' = _order_status self /\
  _order_link_id_n self' = _order_link_id_n self.
Proof. intros [= <- <- <-]. by repeat split. Qed.

Lemma create_order_body_frame kwargs w self w' self' e :
  create_order_body clock kwargs (w, self) = ((w', self'), e) ->
  untouched self self' /\ _calls w' = _calls w /\
  _order_link_id_n self'
  = match p_orderLinkId kwargs with
    | Some _ => _order_link_id_n self
    | None => (_order_link_id_n self + 1)%Z
    end /\
  exists status, _order_status self' !! link_of self kwargs = Some status /\
                 (status = "" \/ status = "Unsubmitted").
Proof.
  unfold create_order_body, link_of, timestamp, throttle.time, send. simpl.
  destruct (p_orderLinkId kwargs) as [link|]; simpl;
    destruct (_position_event self) eqn:Ev; simpl;
    try destruct (_websockets self !! "trade"); simpl;
    try destruct (p_qty kwargs) as [q|]; simpl;
    try destruct (Qeq_bool q 0); simpl;
    intros [= <- <- <-]; simpl; rewrite ?Ev;
    (split; [by repeat split|]); (split; [done|]); (split; [done|]);
    eexists; rewrite ?lookup_insert_eq; eauto.
Qed.

Lemma amend_order_body_frame kwargs w self w' self' e :
  amend_order_body clock kwargs (w, self) = ((w', self'), e) ->
  untouched self self' /\ _calls w' = _calls w /\
  _order_link_id_n self' = _order_link_id_n self.
Proof.
  unfold amend_order_body, timestamp, throttle.time, send. simpl.
  destruct (_websockets self !! "trade"); simpl;
    try destruct (p_qty kwargs) as [q|]; simpl;
    try destruct (Qeq_bool q 0); simpl;
    try destruct (p_orderLinkId kwargs) as [link|]; simpl;
    intros [= <- <- <-]; by repeat split.
Qed.

Lemma cancel_order_body_frame link w self w' self' e :
  cancel_order_body clock link (w, self) = ((w', self'), e) ->
  untouched self self' /\ e = None /\ _calls w' = _calls w /\
  _order_status self' = _order_status self /\
  _order_link_id_n self' = _order_link_id_n self /\
  ((_active_orders self !! link = None \/ _websockets self !! "trade" = None) ->
   self' = self).
Proof.
  unfold cancel_order_body, timestamp, throttle.time, send. simpl.
  destruct (_active_orders self !! link) as [o|] eqn:Ea; simpl;
    try destruct (_websockets self !! "trade") eqn:Et; simpl;
    intros [= <- <- <-]; repeat split; try done; intros [?|?]; done.
Qed.

End Clock.

Lemma untouched_refl self : untouched self self.
Proof. by repeat split. Qed.

Lemma untouched_well_keyed self self' :
  untouched self self' -> well_keyed self -> well_keyed self'.
Proof.
  intros (Es & Ec & _ & _ & _ & _ & Ea & _) Hk link o.
  unfold relevant. rewrite Ea, Es, Ec. apply Hk.
Qed.

End oms_frames.

(** ** Stream handlers of the order engine *)

Module oms_streams.
Import oms oms_orders oms_operations oms_frames.
Local Open Scope Q_scope.

Lemma filter_all {A : Type} (f : A -> bool) (l : list A) :
  Forall (fun x => f x = true) (List.filter f l).
Proof.
  induction l as [|x l IH]; simpl; [constructor|].
  destruct (f x) eqn:E; [by constructor|done].
Qed.

Lemma apply_order_fields self o :
  _symbol (apply_order self o) = _symbol self /\
  _category (apply_order self o) = _category self /\
  _flag (apply_order self o) = _flag self /\
  _websockets (apply_order self o) = _websockets self /\
  _position (apply_order self o) = _position self /\
  _side (apply_order self o) = _side self /\
  _position_event (apply_order self o) = _position_event self /\
  _order_link_id_n (apply_order self o) = _order_link_id_n self /\
  _uuid (apply_order self o) = _uuid self.
Proof. unfold apply_order. by destruct (negb _). Qed.

Lemma apply_orders_fields data self :
  _symbol (fold_left apply_order data self) = _symbol self /\
  _category (fold_left apply_order data self) = _category self /\
  _flag (fold_left apply_order data self) = _flag self /\
  _websockets (fold_left apply_order data self) = _websockets self /\
  _position (fold_left apply_order data self) = _position self /\
  _side (fold_left apply_order data self) = _side self /\
  _position_event (fold_left apply_order data self) = _position_event self /\
  _order_link_id_n (fold_left apply_order data self) = _order_link_id_n self /\
  _uuid (fold_left apply_order data self) = _uuid self.
Proof.
  revert self. induction data as [|o data IH]; intros self; simpl; [done|].
  destruct (IH (apply_order self o))
    as (-> & -> & -> & -> & -> & -> & -> & -> & ->).
  apply apply_order_fields.
Qed.

Lemma apply_order_well_keyed self o :
  relevant self o = true -> well_keyed self -> well_keyed (apply_order self o).
Proof.
  intros Ho Hk link o'. unfold apply_order, relevant.
  destruct (Qeq_bool (leavesQty o) 0) eqn:E; simpl.
  - destruct (decide (orderLinkId o = link)) as [<-|Hne].
    + by rewrite lookup_delete_eq.
    + rewrite lookup_delete_ne by done. apply Hk.
  - destruct (decide (orderLinkId o = link)) as [<-|Hne].
    + rewrite lookup_insert_eq. by intros [= <-].
    + rewrite lookup_insert_ne by done. apply Hk.
Qed.

Lemma apply_orders_well_keyed data self :
  Forall (fun o => relevant self o = true) data ->
  well_keyed self -> well_keyed (fold_left apply_order data self).
Proof.
  intros Hd. revert self Hd.
  induction data as [|o data IH]; intros self Hd Hk; simpl; [done|].
  apply Forall_cons in Hd as [Ho Hd]. apply IH.
  - eapply Forall_impl; [exact Hd|]. simpl. intros o'. unfold relevant.
    by destruct (apply_order_fields self o) as (-> & -> & _).
  - by apply apply_order_well_keyed.
Qed.

Lemma on_order_message_well_keyed self msg :
  well_keyed self -> well_keyed (fst (_on_order_message self msg)).
Proof.
  intros Hk. destruct msg as [topic data|[]|]; simpl; try done.
  destruct (String.eqb topic "order"); [|done].
  destruct (existsb (relevant self) data); simpl; [|done].
  apply apply_orders_well_keyed; [|done]. apply sorted_Forall, filter_all.
Qed.

Lemma apply_executions_fields data self :
  _symbol (fold_left apply_execution data self) = _symbol self /\
  _category (fold_left apply_execution data self) = _category self /\
  _flag (fold_left apply_execution data self) = _flag self /\
  _active_orders (fold_left apply_execution data self) = _active_orders self /\
  _order_status (fold_left apply_execution data self) = _order_status self /\
  _websockets (fold_left apply_execution data self) = _websockets self /\
  _position_event (fold_left apply_execution data self) = _position_event self /\
  _uuid (fold_left apply_execution data self) = _uuid self.
Proof.
  revert self. induction data as [|e data IH]; intros self; simpl; [done|].
  by destruct (IH (apply_execution self e))
    as (-> & -> & -> & -> & -> & -> & -> & ->).
Qed.

Lemma on_exec_message_fields self msg :
  _symbol (fst (_on_exec_message self msg)) = _symbol self /\
  _category (fst (_on_exec_message self msg)) = _category self /\
  _flag (fst (_on_exec_message self msg)) = _flag self /\
  _active_orders (fst (_on_exec_message self msg)) = _active_orders self /\
  _order_status (fst (_on_exec_message self msg)) = _order_status self /\
  _websockets (fst (_on_exec_message self msg)) = _websockets self.
Proof.
  destruct msg as [topic data|[]|]; simpl; try done.
  destruct (_ && _); simpl; [|done].
  by destruct (apply_executions_fields
                 (sorted execTime
                    (List.filter (e_relevant (set_position_event self true)) data))
                 (set_position_event self true))
    as (-> & -> & -> & -> & -> & -> & _).
Qed.

End oms_streams.

Module oms_extra.
Import oms oms_orders oms_operations oms_frames oms_streams.
Local Open Scope Q_scope.

(** X12. An order-stream batch touches only the link-ids of its tracked
    updates: for every other link-id the status and the active entry are what
    they were, and the position and the channels are never written. *)
Theorem order_batch_leaves_other_link_ids (self : Oms) (topic : string)
    (data : list order) (link : string) :
  Forall (fun o => relevant self o = true -> orderLinkId o <> link) data ->
  _order_status (fst (_on_order_message self (Topic topic data))) !! link
  = _order_status self !! link /\
  _active_orders (fst (_on_order_message self (Topic topic data))) !! link
  = _active_orders self !! link /\
  _position (fst (_on_order_message self (Topic topic data))) = _position self /\
  _websockets (fst (_on_order_message self (Topic topic data)))
  = _websockets self.
Proof.
  intros Hd. simpl. destruct (String.eqb topic "order"); [|done].
  destruct (existsb (relevant self) data); simpl; [|done].
  set (batch := sorted updatedTime (List.filter (relevant self) data)).
  destruct (apply_orders_other batch self link) as [-> ->].
  { by apply sorted_Forall, filter_Forall_cond. }
  by destruct (apply_orders_fields batch self) as (_ & _ & _ & -> & -> & _).
Qed.

Lemma order_batch_leaves_other_link_ids_witness :
  _order_status (fst (_on_order_message tracking (Topic "order" [filled])))
    !! "UUID0000"
  = _order_status tracking !! "UUID0000" /\
  _active_orders (fst (_on_order_message tracking (Topic "order" [filled])))
    !! "UUID0000"
  = _active_orders tracking !! "UUID0000" /\
  _position (fst (_on_order_message tracking (Topic "order" [filled])))
  = _position tracking /\
  _websockets (fst (_on_order_message tracking (Topic "order" [filled])))
  = _websockets tracking.
Proof.
  apply (order_batch_leaves_other_link_ids tracking "order" [filled] "UUID0000").
  repeat constructor. discriminate.
Defined.

Lemma perform_well_keyed clock fuel o ws ws' :
  perform clock fuel o ws = Some ws' ->
  well_keyed (snd ws) -> well_keyed (snd ws').
Proof.
  destruct ws as [w self], ws' as [w' self'].
  destruct o as [msg|msg|kwargs|kwargs|link|link| |]; simpl.
  - intros [= <- <-]. apply on_order_message_well_keyed.
  - intros [= <- <-] Hk link o. unfold relevant.
    destruct (on_exec_message_fields self msg) as (-> & -> & _ & -> & _).
    apply Hk.
  - destruct (create_order clock kwargs fuel (w, self)) as [[[w1 s1] e]|] eqn:E;
      [|done]. intros [= <- <-].
    apply throttle_returns in E as (w2 & w3 & _ & E).
    apply create_order_body_frame in E as [Hu _]. by apply untouched_well_keyed.
  - destruct (amend_order clock kwargs fuel (w, self)) as [[[w1 s1] e]|] eqn:E;
      [|done]. intros [= <- <-].
    apply throttle_returns in E as (w2 & w3 & _ & E).
    apply amend_order_body_frame in E as [Hu _]. by apply untouched_well_keyed.
  - destruct (cancel_order clock link fuel (w, self)) as [[[w1 s1] e]|] eqn:E;
      [|done]. intros [= <- <-].
    apply throttle_returns in E as (w2 & w3 & _ & E).
    apply cancel_order_body_frame in E as [Hu _]. by apply untouched_well_keyed.
  - by intros [= <- <-].
  - destruct (connect clock fuel (w, self)) as [[[w1 s1] e]|] eqn:E; [|done].
    intros [= <- <-].
    apply throttle_returns in E as (w2 & w3 & _ & E).
    apply connect_body_frame in E as [Hu _]. by apply untouched_well_keyed.
  - by intros [= <- <-].
Qed.

(** X13. In every state an engine reaches from its constructor by any
    sequence of stream messages and operations, each entry of the active set
    is stored under its own link-id, is of the tracked symbol and category,
    and has a leaves-quantity other than 0. *)
Theorem active_set_well_keyed (clock : nat -> Q) (symbol category uuid : string)
    (api_rate : Z) (w0 : world) (ops : list (nat * operation))
    (w' : world) (self' : Oms) :
  perform_all clock ops (init symbol category api_rate uuid w0) = Some (w', self') ->
  forall link o,
    _active_orders self' !! link = Some o ->
    orderLinkId o = link /\ relevant self' o = true /\
    Qeq_bool (leavesQty o) 0 = false.
Proof.
  assert (H : forall ws, well_keyed (snd ws) ->
            perform_all clock ops ws = Some (w', self') -> well_keyed self').
  { induction ops as [|[fuel o] ops IH]; intros ws Hk; simpl.
    - by intros [= ->].
    - destruct (perform clock fuel o ws) as [ws1|] eqn:E; [|done].
      apply IH. by eapply perform_well_keyed. }
  intros Hrun. apply (H (init symbol category api_rate uuid w0)); [|done].
  intros link o Hl. simpl in Hl. by rewrite lookup_empty in Hl.
Qed.

Lemma active_set_well_keyed_witness :
  exists w' self',
    perform_all tick_clock session (init "BTCUSDT" "linear" 10 "abcdefghij" boot)
    = Some (w', self') /\
    forall link o,
      _active_orders self' !! link = Some o ->
      orderLinkId o = link /\ relevant self' o = true /\
      Qeq_bool (leavesQty o) 0 = false.
Proof.
  eexists _, _. split; [vm_compute; reflexivity|].
  eapply (active_set_well_keyed tick_clock "BTCUSDT" "linear" "abcdefghij" 10
            boot session).
  vm_compute. reflexivity.
Defined.

(** X14. The execution handler never writes the orders: whatever message
    it receives, the active set, the statuses, the channels and the keepalive
    flag are what they were; and a message that holds no tracked execution
    changes nothing at all. *)
Theorem execution_messages_leave_orders_alone (self : Oms)
    (msg : message execution) :
  _active_orders (fst (_on_exec_message self msg)) = _active_orders self /\
  _order_status (fst (_on_exec_message self msg)) = _order_status self /\
  _websockets (fst (_on_exec_message self msg)) = _websockets self /\
  _flag (fst (_on_exec_message self msg)) = _flag self /\
  forall topic data,
    msg = Topic topic data -> existsb (e_relevant self) data = false ->
    fst (_on_exec_message self msg) = self.
Proof.
  destruct (on_exec_message_fields self msg) as (_ & _ & ? & ? & ? & ?).
  repeat split; try done.
  intros topic data -> Hnone. simpl. by rewrite Hnone, andb_false_r.
Qed.

(** X15. After an execution batch the recorded side is the side of its
    latest tracked execution: the one with the greatest execution time, the
    later in the batch among equal times. *)
Theorem side_is_latest_execution (self : Oms) (pre post : list execution)
    (e : execution) :
  e_relevant self e = true ->
  Forall (fun e' => e_relevant self e' = true ->
                    (execTime e' <= execTime e)%Z) pre ->
  Forall (fun e' => e_relevant self e' = true ->
                    (execTime e' < execTime e)%Z) post ->
  _side (fst (_on_exec_message self (Topic (_fe self) (pre ++ e :: post))))
  = Some (side e).
Proof.
  intros He Hpre Hpost. simpl. rewrite String.eqb_refl. simpl.
  assert (existsb (e_relevant self) (pre ++ e :: post) = true) as ->.
  { apply existsb_exists. exists e. split; [|done].
    apply in_or_app. right. by left. }
  simpl.
  destruct (sorted_latest execTime (fun _ => True) (e_relevant self) pre e post)
    as (xs & ys & E & Hys); [done| | |].
  { eapply Forall_impl; [exact Hpre|]. simpl. auto. }
  { eapply Forall_impl; [exact Hpost|]. simpl. auto. }
  assert (ys = []) as ->.
  { destruct Hys as [|y ys Hy _]; [done|]. by destruct Hy. }
  change (e_relevant (set_position_event self true)) with (e_relevant self).
  by rewrite E, last_snoc.
Qed.

Lemma side_is_latest_execution_witness :
  _side (fst (_on_exec_message fresh
                (Topic (_fe fresh) ([sold 1 5] ++ bought 2 7 :: [sold 3 6]))))
  = Some (side (bought 2 7)).
Proof.
  apply (side_is_latest_execution fresh [sold 1 5] [sold 3 6] (bought 2 7)).
  - reflexivity.
  - repeat constructor; simpl; lia.
  - repeat constructor; simpl; lia.
Defined.

End oms_extra.

(** ** Failure modes and composition of the order operations *)

Module oms_calls.
Import oms oms_operations oms_frames oms_streams.
Local Open Scope Q_scope.

Section Clock.
Variable clock : nat -> Q.

(** The outcome of a throttled call in full: the wait, the function, and the
    timestamp recorded only when the function returned. *)
Lemma throttle_outcome {S : Type} rate
    (func : world * S -> (world * S) * option exn) fuel w s w' s' e :
  throttle.throttle clock rate func fuel (w, s) = Some ((w', s'), e) ->
  exists w1 w2,
    throttle.wait clock fuel rate (throttle.prune clock w) = Some w1 /\
    func (w1, s) = ((w2, s'), e) /\
    w' = match e with
         | Some _ => w2
         | None => throttle.record_call clock w2
         end.
Proof.
  unfold throttle.throttle. simpl.
  destruct (throttle.wait clock fuel rate (throttle.prune clock w)) as [w1|];
    [|done].
  destruct (func (w1, s)) as [[w2 s2] e2] eqn:Ef.
  intros H. exists w1, w2. split; [done|].
  destruct e2; injection H as <- <- <-; done.
Qed.

(** The body of [create_order] when the signal is clear and the request
    cannot be completed. *)
Lemma create_order_body_failures kwargs w self w' self' e :
  create_order_body clock kwargs (w, self) = ((w', self'), e) ->
  _position_event self = false ->
  (_websockets self !! "trade" = None ->
     e = Some KeyError /\ _websockets self' = _websockets self /\
     order_status self' (link_of self kwargs) = inr "") /\
  (forall sent,
     _websockets self !! "trade" = Some sent -> p_qty kwargs = None ->
     e = Some KeyError /\
     transmitted self'
     = sent ++ [create_request self kwargs
                  (pretty (py_int (clock (reads w) * 1000)))] /\
     order_status self' (link_of self kwargs) = inr "").
Proof.
  unfold create_request, create_order_body, link_of, timestamp, throttle.time,
    send, transmitted, order_status.
  simpl. intros H Hev.
  destruct (p_orderLinkId kwargs) as [link|]; simpl in H; rewrite Hev in H;
    simpl in H; (split; [intros Hc|intros sent Hc Hq]); rewrite Hc in H;
    rewrite ?Hq in H; injection H as <- <- <-; simpl;
    by rewrite !lookup_insert_eq.
Qed.

(** The body of [amend_order] with the trade channel open. *)
Lemma amend_order_body_cases kwargs w self w' self' e sent :
  amend_order_body clock kwargs (w, self) = ((w', self'), e) ->
  _websockets self !! "trade" = Some sent ->
  transmitted self'
  = sent ++ [amend_request self kwargs (pretty (py_int (clock (reads w) * 1000)))] /\
  match p_qty kwargs with
  | None => e = Some KeyError /\ _order_status self' = _order_status self
  | Some q =>
      if Qeq_bool q 0 then
        match p_orderLinkId kwargs with
        | None => e = Some KeyError /\ _order_status self' = _order_status self
        | Some link =>
            e = None /\
            _order_status self' = <[link := "Unsubmitted"]> (_order_status self)
        end
      else e = None /\ _order_status self' = _order_status self
  end.
Proof.
  unfold amend_request, amend_order_body, timestamp, throttle.time, send,
    transmitted.
  simpl. intros H Hsent. rewrite Hsent in H.
  destruct (p_qty kwargs) as [q|]; [destruct (Qeq_bool q 0);
    [destruct (p_orderLinkId kwargs) as [link|]|]|];
    injection H as <- <- <-; simpl; by rewrite lookup_insert_eq.
Qed.

(** The body of [cancel_order] when it does send. *)
Lemma cancel_order_body_sends link w self w' self' e o sent :
  cancel_order_body clock link (w, self) = ((w', self'), e) ->
  _active_orders self !! link = Some o ->
  _websockets self !! "trade" = Some sent ->
  _websockets self'
  = <["trade" := sent ++ [cancel_request (orderId o)
                            (pretty (py_int (clock (reads w) * 1000)))]]>
      (_websockets self).
Proof.
  unfold cancel_request, cancel_order_body, timestamp, throttle.time, send.
  intros H Ha Hs. rewrite Ha in H. simpl in H. rewrite Hs in H.
  by injection H as <- <- <-.
Qed.

Lemma perform_fields fuel o ws ws' :
  perform clock fuel o ws = Some ws' ->
  _uuid (snd ws') = _uuid (snd ws) /\
  (_flag (snd ws) = false -> _flag (snd ws') = false) /\
  match o with
  | OrderMessage _ | ExecMessage _ => True
  | _ => _active_orders (snd ws') = _active_orders (snd ws) /\
         _position (snd ws') = _position (snd ws) /\
         _side (snd ws') = _side (snd ws)
  end.
Proof.
  destruct ws as [w self], ws' as [w' self'].
  destruct o as [msg|msg|kwargs|kwargs|link|link| |]; simpl.
  - intros [= <- <-]. destruct msg as [topic data|[]|]; simpl; try done.
    destruct (String.eqb topic "order"); [|done].
    destruct (existsb _ _); simpl; [|done].
    set (batch := sorted updatedTime (List.filter (relevant self) data)).
    by destruct (apply_orders_fields batch self)
      as (_ & _ & -> & _ & _ & _ & _ & _ & ->).
  - intros [= <- <-]. destruct msg as [topic data|[]|]; simpl; try done.
    destruct (_ && _); simpl; [|done].
    set (batch := sorted execTime _).
    by destruct (apply_executions_fields batch (set_position_event self true))
      as (_ & _ & -> & _ & _ & _ & _ & ->).
  - destruct (create_order clock kwargs fuel (w, self)) as [[[w1 s1] e]|] eqn:E;
      [|done]. intros [= <- <-].
    apply throttle_returns in E as (w2 & w3 & _ & E).
    apply create_order_body_frame in E
      as [(_ & _ & -> & _ & -> & _ & -> & -> & ->) _]. done.
  - destruct (amend_order clock kwargs fuel (w, self)) as [[[w1 s1] e]|] eqn:E;
      [|done]. intros [= <- <-].
    apply throttle_returns in E as (w2 & w3 & _ & E).
    apply amend_order_body_frame in E
      as [(_ & _ & -> & _ & -> & _ & -> & -> & ->) _]. done.
  - destruct (cancel_order clock link fuel (w, self)) as [[[w1 s1] e]|] eqn:E;
      [|done]. intros [= <- <-].
    apply throttle_returns in E as (w2 & w3 & _ & E).
    apply cancel_order_body_frame in E
      as [(_ & _ & -> & _ & -> & _ & -> & -> & ->) _]. done.
  - by intros [= <- <-].
  - destruct (connect clock fuel (w, self)) as [[[w1 s1] e]|] eqn:E; [|done].
    intros [= <- <-].
    apply throttle_returns in E as (w2 & w3 & _ & E).
    apply connect_body_frame in E
      as [(_ & _ & -> & _ & -> & _ & -> & -> & ->) _]. done.
  - by intros [= <- <-].
Qed.

Lemma perform_all_app ops1 ops2 ws :
  perform_all clock (ops1 ++ ops2) ws
  = match perform_all clock ops1 ws with
    | Some ws1 => perform_all clock ops2 ws1
    | None => None
    end.
Proof.
  revert ws. induction ops1 as [|[fuel o] ops1 IH]; intros ws; simpl; [done|].
  destruct (perform clock fuel o ws); [apply IH|done].
Qed.

Lemma perform_all_flag ops ws ws' :
  perform_all clock ops ws = Some ws' ->
  _flag (snd ws) = false -> _flag (snd ws') = false.
Proof.
  revert ws. induction ops as [|[fuel o] ops IH]; intros ws; simpl.
  - by intros [= ->].
  - destruct (perform clock fuel o ws) as [ws1|] eqn:E; [|done].
    intros H Hf. apply (IH ws1 H). by apply (perform_fields _ _ _ _ E).
Qed.

End Clock.
End oms_calls.

Module oms_call_extra.
Import oms oms_operations oms_frames oms_streams oms_calls.
Local Open Scope Q_scope.

(** X16. A [create_order] with the signal clear fails with [KeyError] when the
    trade channel is not open (nothing is sent) or when no [qty] was given
    (the request has already been sent by then).  Either way the status of
    the order stays "" and the throttle records no timestamp for the call. *)
Theorem create_order_failures (clock : nat -> Q) (kwargs : params) (fuel : nat)
    (w w' : world) (self self' : Oms) (e : option exn) :
  create_order clock kwargs fuel (w, self) = Some ((w', self'), e) ->
  _position_event self = false ->
  _websockets self !! "trade" = None \/ p_qty kwargs = None ->
  e = Some KeyError /\
  order_status self' (link_of self kwargs) = inr "" /\
  (_websockets self !! "trade" = None -> _websockets self' = _websockets self) /\
  (forall sent,
     _websockets self !! "trade" = Some sent ->
     exists r,
       transmitted self'
       = sent ++ [create_request self kwargs (pretty (py_int (clock r * 1000)))]) /\
  exists w1,
    throttle.wait clock fuel 10 (throttle.prune clock w) = Some w1 /\
    _calls w' = _calls w1.
Proof.
  intros H Hev Hcase.
  apply throttle_outcome in H as (w1 & w2 & Hw & Hb & Hw').
  pose proof (create_order_body_frame _ _ _ _ _ _ _ Hb) as (_ & Hcalls & _).
  destruct (create_order_body_failures _ _ _ _ _ _ _ Hb Hev) as [Hclosed Hopen].
  assert (He : e = Some KeyError /\
               order_status self' (link_of self kwargs) = inr "").
  { destruct (_websockets self !! "trade") as [sent|] eqn:Et.
    - destruct Hcase as [|Hq]; [done|].
      by destruct (Hopen sent eq_refl Hq) as (? & _ & ?).
    - by destruct (Hclosed eq_refl) as (? & _ & ?). }
  destruct He as [-> Hst]. subst w'. repeat split; try done.
  - intros Hc. by destruct (Hclosed Hc) as (_ & ? & _).
  - intros sent Hs. destruct Hcase as [Hc|Hq]; [congruence|].
    exists (reads w1). by destruct (Hopen sent Hs Hq) as (_ & ? & _).
  - by exists w1.
Qed.

Lemma create_order_failures_witness :
  exists w' self' e,
    create_order tick_clock zero_order 0 (boot, fresh) = Some ((w', self'), e) /\
    e = Some KeyError /\
    order_status self' (link_of fresh zero_order) = inr "" /\
    (_websockets fresh !! "trade" = None -> _websockets self' = _websockets fresh) /\
    (forall sent,
       _websockets fresh !! "trade" = Some sent ->
       exists r,
         transmitted self'
         = sent ++ [create_request fresh zero_order
                      (pretty (py_int (tick_clock r * 1000)))]) /\
    exists w1,
      throttle.wait tick_clock 0 10 (throttle.prune tick_clock boot) = Some w1 /\
      _calls w' = _calls w1.
Proof.
  eexists _, _, _. split; [vm_compute; reflexivity|].
  eapply (create_order_failures tick_clock zero_order 0 boot _ fresh).
  - vm_compute. reflexivity.
  - reflexivity.
  - left. reflexivity.
Defined.

(** X17. Whenever [create_order] comes back, with or without an exception,
    its link-id has a status, "" or "Unsubmitted": a later [order_status] of
    that link-id does not raise. *)
Theorem create_order_registers_status (clock : nat -> Q) (kwargs : params)
    (fuel : nat) (w w' : world) (self self' : Oms) (e : option exn) :
  create_order clock kwargs fuel (w, self) = Some ((w', self'), e) ->
  order_status self' (link_of self kwargs) = inr "" \/
  order_status self' (link_of self kwargs) = inr "Unsubmitted".
Proof.
  intros H. apply throttle_returns in H as (w1 & w2 & _ & H).
  apply create_order_body_frame in H as (_ & _ & _ & status & Hs & Hcase).
  unfold order_status. rewrite Hs. by destruct Hcase as [->| ->]; [left|right].
Qed.

Lemma create_order_registers_status_witness :
  exists w' self' e,
    create_order tick_clock anonymous_order 0 (boot, connected)
    = Some ((w', self'), e) /\
    (order_status self' (link_of connected anonymous_order) = inr "" \/
     order_status self' (link_of connected anonymous_order) = inr "Unsubmitted").
Proof.
  eexists _, _, _. split; [vm_compute; reflexivity|].
  eapply (create_order_registers_status tick_clock anonymous_order 0 boot _
            connected).
  vm_compute. reflexivity.
Defined.

(** X18. A [create_order] without a caller's link-id uses up one value of
    the engine's counter, also when it raises; a link-id generated later,
    from the same prefix and any larger counter, differs from the one it
    used. *)
Theorem generated_link_ids_are_fresh (clock : nat -> Q) (kwargs : params)
    (fuel : nat) (w w' : world) (self self' : Oms) (e : option exn) :
  create_order clock kwargs fuel (w, self) = Some ((w', self'), e) ->
  p_orderLinkId kwargs = None ->
  _order_link_id_n self' = (_order_link_id_n self + 1)%Z /\
  _uuid self' = _uuid self /\
  forall later kwargs',
    _uuid later = _uuid self ->
    (_order_link_id_n self' <= _order_link_id_n later)%Z ->
    p_orderLinkId kwargs' = None ->
    link_of later kwargs' <> link_of self kwargs.
Proof.
  intros H Hnone. apply throttle_returns in H as (w1 & w2 & _ & H).
  apply create_order_body_frame in H as ((_ & _ & Hu & _) & _ & Hn & _).
  rewrite Hnone in Hn. repeat split; try done.
  intros later kwargs' Hu' Hle Hnone'. unfold link_of.
  rewrite Hnone, Hnone', Hu'. intros Heq.
  apply (inj (String.app _)) in Heq. apply (inj (String.app _)) in Heq.
  apply (inj pretty) in Heq. lia.
Qed.

Lemma generated_link_ids_are_fresh_witness :
  exists w' self' e,
    create_order tick_clock anonymous_order 0 (boot, connected)
    = Some ((w', self'), e) /\
    _order_link_id_n self' = (_order_link_id_n connected + 1)%Z /\
    _uuid self' = _uuid connected /\
    forall later kwargs',
      _uuid later = _uuid connected ->
      (_order_link_id_n self' <= _order_link_id_n later)%Z ->
      p_orderLinkId kwargs' = None ->
      link_of later kwargs' <> link_of connected anonymous_order.
Proof.
  eexists _, _, _. split; [vm_compute; reflexivity|].
  eapply (generated_link_ids_are_fresh tick_clock anonymous_order 0 boot _
            connected).
  - vm_compute. reflexivity.
  - reflexivity.
Defined.

(** X19. [amend_order] with the trade channel open transmits its request
    whatever the position-update signal says.  It then raises [KeyError] when
    no [qty] was given, or when the quantity is zero and no link-id was
    given; it marks the link-id "Unsubmitted" when the quantity is zero, and
    leaves the statuses alone otherwise. *)
Theorem amend_order_always_transmits (clock : nat -> Q) (kwargs : params)
    (fuel : nat) (w w' : world) (self self' : Oms) (e : option exn)
    (sent : list request) :
  amend_order clock kwargs fuel (w, self) = Some ((w', self'), e) ->
  _websockets self !! "trade" = Some sent ->
  (exists r,
     transmitted self'
     = sent ++ [amend_request self kwargs (pretty (py_int (clock r * 1000)))]) /\
  match p_qty kwargs with
  | None => e = Some KeyError /\ _order_status self' = _order_status self
  | Some q =>
      if Qeq_bool q 0 then
        match p_orderLinkId kwargs with
        | None => e = Some KeyError /\ _order_status self' = _order_status self
        | Some link =>
            e = None /\
            _order_status self' = <[link := "Unsubmitted"]> (_order_status self)
        end
      else e = None /\ _order_status self' = _order_status self
  end.
Proof.
  intros H Hsent. apply throttle_returns in H as (w1 & w2 & _ & H).
  destruct (amend_order_body_cases _ _ _ _ _ _ _ _ H Hsent) as [Ht Hcase].
  split; [by exists (reads w1)|done].
Qed.

Lemma amend_order_always_transmits_witness :
  exists w' self' e,
    amend_order tick_clock zero_order 0 (boot, set_position_event connected true)
    = Some ((w', self'), e) /\
    (exists r,
       transmitted self'
       = [] ++ [amend_request (set_position_event connected true) zero_order
                  (pretty (py_int (tick_clock r * 1000)))]) /\
    e = None /\
    _order_status self'
    = <["UUID1234" := "Unsubmitted"]>
        (_order_status (set_position_event connected true)).
Proof.
  eexists _, _, _. split; [vm_compute; reflexivity|].
  eapply (amend_order_always_transmits tick_clock zero_order 0 boot _
            (set_position_event connected true));
    vm_compute; reflexivity.
Defined.

(** X20. [cancel_order] never raises and never writes the active set or the
    statuses: a cancelled order stays active until the order stream reports
    it.  When the link-id is not active or the trade channel is not open, the
    engine is left exactly as it was. *)
Theorem cancel_order_never_raises (clock : nat -> Q) (link : string)
    (fuel : nat) (w w' : world) (self self' : Oms) (e : option exn) :
  cancel_order clock link fuel (w, self) = Some ((w', self'), e) ->
  e = None /\
  _active_orders self' = _active_orders self /\
  _order_status self' = _order_status self /\
  ((_active_orders self !! link = None \/ _websockets self !! "trade" = None) ->
   self' = self).
Proof.
  intros H. apply throttle_returns in H as (w1 & w2 & _ & H).
  apply cancel_order_body_frame in H
    as ((_ & _ & _ & _ & _ & _ & ? & _) & ? & _ & ? & _ & ?).
  done.
Qed.

Lemma cancel_order_never_raises_witness :
  exists w' self' e,
    cancel_order tick_clock "UUID1234" 0 (boot, kill tracking)
    = Some ((w', self'), e) /\
    e = None /\
    _active_orders self' = _active_orders (kill tracking) /\
    _order_status self' = _order_status (kill tracking) /\
    ((_active_orders (kill tracking) !! "UUID1234" = None \/
      _websockets (kill tracking) !! "trade" = None) ->
     self' = kill tracking).
Proof.
  eexists _, _, _. split; [vm_compute; reflexivity|].
  eapply (cancel_order_never_raises tick_clock "UUID1234" 0 boot _ (kill tracking)).
  vm_compute. reflexivity.
Defined.

End oms_call_extra.

Module oms_lifecycle_extra.
Import oms oms_operations oms_frames oms_streams oms_calls.
Local Open Scope Q_scope.

(** X21. Only the two streams move orders and position: whatever else is
    done to an engine (create, amend, cancel, status eviction, connect,
    kill), the active set, the position and the last side are what they
    were. *)
Theorem only_streams_move_orders (clock : nat -> Q) (fuel : nat)
    (o : operation) (ws ws' : world * Oms) :
  perform clock fuel o ws = Some ws' ->
  match o with
  | OrderMessage _ | ExecMessage _ => True
  | _ => _active_orders (snd ws') = _active_orders (snd ws) /\
         _position (snd ws') = _position (snd ws) /\
         _side (snd ws') = _side (snd ws)
  end.
Proof. intros H. by apply perform_fields in H as (_ & _ & ?). Qed.

Lemma only_streams_move_orders_witness :
  exists ws',
    perform tick_clock 0 (CancelOrder "UUID1234") (boot, tracking) = Some ws' /\
    _active_orders (snd ws') = _active_orders tracking /\
    _position (snd ws') = _position tracking /\
    _side (snd ws') = _side tracking.
Proof.
  eexists. split; [vm_compute; reflexivity|].
  eapply (only_streams_move_orders tick_clock 0 (CancelOrder "UUID1234")
            (boot, tracking)).
  vm_compute. reflexivity.
Defined.

(** X22. [remove_status] evicts the status of its link-id only: a lookup of
    that link-id raises [KeyError] afterwards, every other lookup answers as
    before, a second eviction changes nothing, and the active set is not
    written, so an order can be active and have no status. *)
Theorem remove_status_evicts_only_the_status (self : Oms) (link : string) :
  order_status (remove_status self link) link = inl KeyError /\
  (forall other, other <> link ->
     order_status (remove_status self link) other = order_status self other) /\
  remove_status (remove_status self link) link = remove_status self link /\
  _active_orders (remove_status self link) = _active_orders self.
Proof.
  unfold order_status, remove_status. simpl. repeat split.
  - by rewrite lookup_delete_eq.
  - intros other Hne. by rewrite lookup_delete_ne.
  - f_equal. apply map_eq. intros k.
    destruct (decide (link = k)) as [->|Hne].
    + by rewrite !lookup_delete_eq.
    + by rewrite !lookup_delete_ne.
Qed.

(** X23. A [reconnect] that returns has reopened the three channels, with
    nothing sent on them, and kept orders, statuses and position; but the
    flag the keepalive loops run on, cleared by [kill], is still False. *)
Theorem reconnect_leaves_flag_cleared (clock : nat -> Q) (fuel : nat)
    (w w' : world) (self self' : Oms) (e : option exn) :
  reconnect clock fuel (w, self) = Some ((w', self'), e) ->
  e = None /\
  _websockets self'
  = <["trade" := []]> (<[_fe self := []]> (<["order" := []]> ∅)) /\
  _flag self' = false /\
  _active_orders self' = _active_orders self /\
  _order_status self' = _order_status self /\
  _position self' = _position self.
Proof.
  unfold reconnect. simpl. intros H.
  apply throttle_returns in H as (w1 & w2 & _ & H).
  by injection H as <- <- <-.
Qed.

Lemma reconnect_leaves_flag_cleared_witness :
  exists w' self' e,
    reconnect tick_clock 0 (boot, tracking) = Some ((w', self'), e) /\
    e = None /\
    _websockets self'
    = <["trade" := []]> (<[_fe tracking := []]> (<["order" := []]> ∅)) /\
    _flag self' = false /\
    _active_orders self' = _active_orders tracking /\
    _order_status self' = _order_status tracking /\
    _position self' = _position tracking.
Proof.
  eexists _, _, _. split; [vm_compute; reflexivity|].
  eapply (reconnect_leaves_flag_cleared tick_clock 0 boot _ tracking).
  vm_compute. reflexivity.
Defined.

(** X24. [cancel_all] over the link-ids [keys], with the trade channel open:
    it raises nothing, leaves the active set and the statuses as they were,
    and transmits, in the order of [keys], one cancel request per link-id
    that is active, carrying the order id stored for it. *)
Theorem cancel_all_sends_one_cancel_per_order (clock : nat -> Q)
    (keys : list string) (fuel : nat) (w w' : world) (self self' : Oms)
    (e : option exn) (sent : list request) :
  cancel_all clock keys fuel (w, self) = Some ((w', self'), e) ->
  _websockets self !! "trade" = Some sent ->
  e = None /\
  _active_orders self' = _active_orders self /\
  _order_status self' = _order_status self /\
  exists reqs,
    transmitted self' = sent ++ reqs /\
    Forall (fun r => op r = "order.cancel") reqs /\
    map args reqs
    = map (fun o => [cancel_args (orderId o)])
        (omap (fun k => _active_orders self !! k) keys).
Proof.
  revert w self sent. induction keys as [|k keys IH]; intros w self sent; simpl.
  - intros [= <- <- <-] Hs. repeat split. exists [].
    unfold transmitted. rewrite Hs, app_nil_r. by repeat split.
  - destruct (cancel_order clock k fuel (w, self)) as [[[w1 s1] e1]|] eqn:E;
      [|done].
    apply throttle_returns in E as (w2 & w3 & _ & E).
    pose proof (cancel_order_body_frame _ _ _ _ _ _ _ E)
      as ((_ & _ & _ & _ & _ & _ & Ha & _) & -> & _ & Hst & _ & Hsame).
    intros H Hs. destruct (_active_orders self !! k) as [o|] eqn:Ek.
    + pose proof (cancel_order_body_sends _ _ _ _ _ _ _ _ _ E Ek Hs) as Hw.
      destruct (IH w1 s1 (sent ++ [cancel_request (orderId o)
                  (pretty (py_int (clock (reads w2) * 1000)))]) H)
        as (-> & Ha' & Hst' & reqs & Ht & Hop & Hargs).
      { by rewrite Hw, lookup_insert_eq. }
      rewrite Ha', Hst', Ha, Hst. repeat split.
      eexists (_ :: reqs). rewrite Ht, <- app_assoc. split; [done|].
      split; [by constructor|]. simpl. f_equal. by rewrite Hargs, Ha.
    + rewrite (Hsame (or_introl eq_refl)) in H. by apply (IH w1 self sent).
Qed.

Lemma cancel_all_sends_one_cancel_per_order_witness :
  exists w' self' e,
    cancel_all tick_clock ["UUID0000"; "UUID1234"] 0 (boot, tracking)
    = Some ((w', self'), e) /\
    e = None /\
    _active_orders self' = _active_orders tracking /\
    _order_status self' = _order_status tracking /\
    exists reqs,
      transmitted self' = [] ++ reqs /\
      Forall (fun r => op r = "order.cancel") reqs /\
      map args reqs
      = map (fun o => [cancel_args (orderId o)])
          (omap (fun k => _active_orders tracking !! k) ["UUID0000"; "UUID1234"]).
Proof.
  eexists _, _, _. split; [vm_compute; reflexivity|].
  eapply (cancel_all_sends_one_cancel_per_order tick_clock
            ["UUID0000"; "UUID1234"] 0 boot _ tracking);
    vm_compute; reflexivity.
Defined.

(** X25. Once [kill] has run, no later stream message or operation, [connect]
    included, sets the flag of the keepalive loops back to True. *)
Theorem keepalive_flag_never_restored (clock : nat -> Q)
    (ops1 ops2 : list (nat * operation)) (fuel : nat)
    (ws : world * Oms) (w' : world) (self' : Oms) :
  perform_all clock (ops1 ++ (fuel, Kill) :: ops2) ws = Some (w', self') ->
  _flag self' = false.
Proof.
  rewrite perform_all_app.
  destruct (perform_all clock ops1 ws) as [ws1|]; [|done]. simpl.
  intros H. by apply (perform_all_flag clock _ _ _ H).
Qed.

Lemma keepalive_flag_never_restored_witness :
  exists w' self',
    perform_all tick_clock
      ([(0%nat, Connect); (0%nat, CreateOrder zero_order)]
       ++ (0%nat, Kill) :: [(0%nat, Connect)])
      (init "BTCUSDT" "linear" 10 "abcdefghij" boot)
    = Some (w', self') /\
    _flag self' = false.
Proof.
  eexists _, _. split; [vm_compute; reflexivity|].
  eapply (keepalive_flag_never_restored tick_clock
            [(0%nat, Connect); (0%nat, CreateOrder zero_order)]
            [(0%nat, Connect)] 0
            (init "BTCUSDT" "linear" 10 "abcdefghij" boot)).
  vm_compute. reflexivity.
Defined.

End oms_lifecycle_extra.

(** ** Partial matches and batch composition *)

Module composition_extra.
Import sessionacc_facts.
Local Open Scope Q_scope.

(** X26. A match of a buy head against a smaller sell head is partial: the
    matched quantity is the sell's, the sell leaves its queue, the buy stays
    at the head with the difference, and the PnL moves by the net profit of
    the matched quantity. *)
Theorem partial_match_leaves_remainder (self : sessionacc.SessionAcc)
    (b s : sessionacc.fill) (bs ss : list sessionacc.fill) :
  sessionacc._buys self = b :: bs -> sessionacc._sells self = s :: ss ->
  sessionacc.qty s < sessionacc.qty b ->
  exists self',
    sessionacc.match_once self = Some self' /\
    sessionacc._sells self' = ss /\
    sessionacc._buys self'
    = {| sessionacc.price := sessionacc.price b;
         sessionacc.qty := sessionacc.qty b - sessionacc.qty s;
         sessionacc.fill_isMaker := sessionacc.fill_isMaker b |} :: bs /\
    sessionacc.pnl self'
    = sessionacc.pnl self
      + sessionacc.spec_net_profit self (sessionacc.price b) (sessionacc.price s)
          (sessionacc.qty s) (sessionacc.fill_isMaker b)
          (sessionacc.fill_isMaker s).
Proof.
  intros Hb Hs Hlt. unfold sessionacc.match_once. rewrite Hb, Hs.
  eexists. split; [reflexivity|]. unfold sessionacc.pnl. simpl.
  assert (Hmin : py_min (sessionacc.qty b) (sessionacc.qty s) = sessionacc.qty s).
  { unfold py_min. destruct (Qle_bool _ _) eqn:E; [|done].
    apply Qle_bool_iff in E. lra. }
  rewrite Hmin. repeat split.
  - by apply consume_all.
  - unfold sessionacc.consume.
    destruct (Qeq_bool (sessionacc.qty b - sessionacc.qty s) 0) eqn:E; [|done].
    apply Qeq_bool_iff in E. lra.
  - unfold sessionacc.net_profit, sessionacc.spec_net_profit, sessionacc.fee,
      sessionacc.feeRate.
    by destruct (sessionacc.fill_isMaker b), (sessionacc.fill_isMaker s).
Qed.

Lemma partial_match_leaves_remainder_witness :
  exists self',
    sessionacc.match_once sessionacc.partial_state = Some self' /\
    sessionacc._sells self' = [] /\
    sessionacc._buys self'
    = {| sessionacc.price := 100; sessionacc.qty := 2 - 1;
         sessionacc.fill_isMaker := true |} :: [] /\
    sessionacc.pnl self'
    = sessionacc.pnl sessionacc.partial_state
      + sessionacc.spec_net_profit sessionacc.partial_state 100 110 1 true false.
Proof.
  apply (partial_match_leaves_remainder sessionacc.partial_state
           {| sessionacc.price := 100; sessionacc.qty := 2;
              sessionacc.fill_isMaker := true |}
           {| sessionacc.price := 110; sessionacc.qty := 1;
              sessionacc.fill_isMaker := false |} [] []);
    reflexivity.
Defined.

Lemma sorted_order_batches (f : oms.order -> bool) batches :
  oms.in_update_order batches ->
  concat (map (fun data => sorted oms.updatedTime (List.filter f data)) batches)
  = sorted oms.updatedTime (List.filter f (concat batches)).
Proof.
  induction batches as [|data batches IH]; simpl; [done|].
  intros [Hd Hrest]. rewrite IH by done.
  rewrite List.filter_app, sorted_app; [done|].
  apply filter_Forall. eapply Forall_impl; [exact Hd|].
  simpl. intros e He. by apply filter_Forall.
Qed.

Lemma on_order_message_fold self data :
  fst (oms._on_order_message self (oms.Topic "order" data))
  = fold_left oms.apply_order
      (sorted oms.updatedTime (List.filter (oms.relevant self) data)) self.
Proof.
  simpl. destruct (existsb (oms.relevant self) data) eqn:E; [done|].
  by rewrite filter_facts.filter_none.
Qed.

(** X27. Order-stream batches that arrive in update-time order leave the
    engine in exactly the state the same updates leave when they arrive as
    one batch. *)
Theorem ordered_order_batches_compose (self : oms.Oms)
    (batches : list (list oms.order)) :
  oms.in_update_order batches ->
  oms.deliver_orders self batches
  = fst (oms._on_order_message self (oms.Topic "order" (concat batches))).
Proof.
  intros Hord. rewrite on_order_message_fold.
  rewrite <- (sorted_order_batches _ _ Hord). clear Hord.
  unfold oms.deliver_orders. revert self.
  induction batches as [|data batches IH]; intros self; [done|].
  cbn [fold_left map concat]. rewrite fold_left_app, on_order_message_fold.
  rewrite IH.
  set (batch := sorted oms.updatedTime (List.filter (oms.relevant self) data)).
  assert (Hr : oms.relevant (fold_left oms.apply_order batch self)
               = oms.relevant self).
  { unfold oms.relevant.
    by destruct (oms_streams.apply_orders_fields batch self) as (-> & -> & _). }
  by rewrite Hr.
Qed.

Lemma ordered_order_batches_compose_witness :
  oms.deliver_orders oms.fresh [[oms.opened]; [oms.filled]]
  = fst (oms._on_order_message oms.fresh
           (oms.Topic "order" (concat [[oms.opened]; [oms.filled]]))).
Proof.
  apply (ordered_order_batches_compose oms.fresh [[oms.opened]; [oms.filled]]).
  vm_compute. repeat constructor; discriminate.
Defined.

End composition_extra.

(** ** The rate enforced on the decorated methods *)

Module oms_rate_claims.
Import oms oms_operations oms_frames oms_calls.
Local Open Scope Q_scope.

Section Clock.
Variable clock : nat -> Q.

Lemma set_reads_same w : set_reads w (reads w) = w.
Proof. by destruct w. Qed.

(** All a method body does to the world is read the clock. *)
Lemma body_reads_clock m w self w' self' e :
  match m with
  | MConnect => connect_body
  | MCreateOrder kwargs => create_order_body clock kwargs
  | MAmendOrder kwargs => amend_order_body clock kwargs
  | MCancelOrder link => cancel_order_body clock link
  end (w, self) = ((w', self'), e) ->
  exists d, w' = set_reads w (d + reads w).
Proof.
  destruct m as [|kwargs|kwargs|link].
  - intros [= <- _ _]. exists O. by rewrite set_reads_same.
  - unfold create_order_body, timestamp, throttle.time, send. simpl.
    destruct (p_orderLinkId kwargs); simpl;
      destruct (_position_event self); simpl;
      try destruct (_websockets self !! "trade"); simpl;
      try destruct (p_qty kwargs) as [q|]; simpl;
      try destruct (Qeq_bool q 0); simpl;
      intros [= <- _ _];
      first [by exists 1%nat | exists O; by rewrite set_reads_same].
  - unfold amend_order_body, timestamp, throttle.time, send. simpl.
    destruct (_websockets self !! "trade"); simpl;
      try destruct (p_qty kwargs) as [q|]; simpl;
      try destruct (Qeq_bool q 0); simpl;
      try destruct (p_orderLinkId kwargs); simpl;
      intros [= <- _ _]; by exists 1%nat.
  - unfold cancel_order_body, timestamp, throttle.time, send. simpl.
    destruct (_active_orders self !! link); simpl;
      try destruct (_websockets self !! "trade"); simpl;
      intros [= <- _ _];
      first [by exists 1%nat | exists O; by rewrite set_reads_same].
Qed.

Lemma invoke_throttle m fuel ws :
  invoke clock m fuel ws
  = throttle.throttle clock 10
      match m with
      | MConnect => connect_body
      | MCreateOrder kwargs => create_order_body clock kwargs
      | MAmendOrder kwargs => amend_order_body clock kwargs
      | MCancelOrder link => cancel_order_body clock link
      end fuel ws.
Proof. by destruct m. Qed.

(** To the throttle, a method call that returns is a call that made some
    clock reads. *)
Lemma invoke_as_call m fuel w self w' self' :
  invoke clock m fuel (w, self) = Some ((w', self'), None) ->
  exists d, throttle.call clock 10 d fuel w = Some w'.
Proof.
  rewrite invoke_throttle. intros H.
  apply throttle_outcome in H as (w1 & w2 & Hw & Hb & ->).
  apply body_reads_clock in Hb as [d ->]. exists d.
  unfold throttle.call, throttle.throttle. simpl. by rewrite Hw.
Qed.

Lemma invoke_all_as_calls ms ws states :
  invoke_all clock ms ws = Some states ->
  exists ds,
    length ds = length ms /\
    throttle.calls_in_a_row clock 10 ds (fst ws) = Some (map fst states).
Proof.
  revert ws states. induction ms as [|[fuel m] ms IH]; intros [w self] states.
  - intros [= <-]. by exists [].
  - simpl.
    destruct (invoke clock m fuel (w, self)) as [[[w1 s1] [e|]]|] eqn:E;
      try done.
    destruct (invoke_all clock ms (w1, s1)) as [states'|] eqn:Ea; [|done].
    intros [= <-]. apply invoke_as_call in E as [d Hd].
    destruct (IH _ _ Ea) as (ds & Hl & Hc).
    exists ((d, fuel) :: ds). split; [simpl; by rewrite Hl|].
    simpl in *. by rewrite Hd, Hc.
Qed.

Lemma invoke_admitted m w self :
  (Z.of_nat (length (_calls w)) < 10)%Z ->
  exists res, invoke clock m 0 (w, self) = Some res.
Proof.
  intros Hlt. rewrite invoke_throttle. unfold throttle.throttle. simpl.
  pose proof (sublist_length _ _ (throttle_rate.prune_sublist clock w)).
  unfold throttle.blocked.
  destruct (Z.leb_spec 10 (Z.of_nat (length (_calls (throttle.prune clock w)))));
    [lia|].
  destruct (match m with
            | MConnect => connect_body
            | MCreateOrder kwargs => create_order_body clock kwargs
            | MAmendOrder kwargs => amend_order_body clock kwargs
            | MCancelOrder link => cancel_order_body clock link
            end (throttle.prune clock w, self)) as [[w2 s2] [e|]]; eauto.
Qed.

Lemma invoke_held m w self :
  (10 <= Z.of_nat (length (_calls (throttle.prune clock w))))%Z ->
  invoke clock m 0 (w, self) = None.
Proof.
  intros Hle. rewrite invoke_throttle. unfold throttle.throttle. simpl.
  unfold throttle.blocked.
  by destruct (Z.leb_spec 10 (Z.of_nat (length (_calls (throttle.prune clock w)))));
    [|lia].
Qed.

Lemma invoke_rate m fuel w self r :
  invoke clock m fuel (set_API_RATE w r, self)
  = rerate r <$> invoke clock m fuel (w, self).
Proof.
  rewrite !invoke_throttle. apply oms_rate.throttle_rate. intros w1 s1.
  destruct m.
  - apply oms_rate.connect_body_rate.
  - apply oms_rate.create_order_body_rate.
  - apply oms_rate.amend_order_body_rate.
  - apply oms_rate.cancel_order_body_rate.
Qed.

End Clock.

(** C10. Whatever [api_rate] the constructor receives, it only lands in the
    global [API_RATE].  The rate enforced on [connect], [create_order],
    [amend_order] and [cancel_order] is the 10 read when the class body was
    evaluated: a call that finds fewer than 10 timestamps recorded is let
    through at once, a call that still has 10 in its window is held, a call
    that returns is counted and leaves at most 10 timestamps, and of eleven
    calls in a row the last is recorded more than a second after the first.
    Changing the global changes nothing in a call but the global itself. *)
Theorem api_rate_argument_not_enforced (clock : nat -> Q)
    (symbol category uuid : string) (api_rate : Z) (w0 : world) :
  throttle.monotone clock ->
  API_RATE (fst (init symbol category api_rate uuid w0)) = api_rate /\
  (forall m w self,
     (Z.of_nat (length (_calls w)) < 10)%Z ->
     exists res, invoke clock m 0 (w, self) = Some res) /\
  (forall m w self,
     (10 <= Z.of_nat (length (_calls (throttle.prune clock w))))%Z ->
     invoke clock m 0 (w, self) = None) /\
  (forall m fuel w self w' self',
     invoke clock m fuel (w, self) = Some ((w', self'), None) ->
     (Z.of_nat (length (_calls w')) <= 10)%Z /\
     last (_calls w') = Some (clock (pred (reads w')))) /\
  (forall ms states,
     invoke_all clock ms (init symbol category api_rate uuid w0) = Some states ->
     length ms = 11%nat ->
     exists w1 wn t1 tn,
       head (map fst states) = Some w1 /\ last (map fst states) = Some wn /\
       last (_calls w1) = Some t1 /\ last (_calls wn) = Some tn /\
       t1 + 1 < tn) /\
  (forall m fuel w self r,
     invoke clock m fuel (set_API_RATE w r, self)
     = rerate r <$> invoke clock m fuel (w, self)).
Proof.
  intros Hmono. split; [done|].
  split; [apply invoke_admitted|]. split; [apply invoke_held|].
  split; [|split; [|apply invoke_rate]].
  - intros m fuel w self w' self' H. apply invoke_as_call in H as [d H].
    by apply throttle_rate.call_leaves in H as (? & ? & _).
  - intros ms states H Hlen.
    apply invoke_all_as_calls in H as (ds & Hl & H).
    apply (throttle_rate.calls_in_a_row_span clock Hmono 10 ds _ _ ltac:(lia) H).
    lia.
Qed.

Lemma milli_clock_monotone : throttle.monotone milli_clock.
Proof. intros n m Hnm. unfold milli_clock, Qle. simpl. lia. Qed.

(** An engine constructed with [api_rate=1] under a clock of a millisecond
    per read: ten cancels go through within 54 ms, the eleventh is held and
    recorded at 1.015 s. *)
Lemma api_rate_argument_not_enforced_witness :
  invoke_all milli_clock eleven_cancels slow_engine = Some eleven_states /\
  exists w1 wn t1 tn,
    head (map fst eleven_states) = Some w1 /\
    last (map fst eleven_states) = Some wn /\
    last (_calls w1) = Some t1 /\ last (_calls wn) = Some tn /\
    t1 + 1 < tn.
Proof.
  split; [vm_compute; reflexivity|].
  apply (proj1 (proj2 (proj2 (proj2 (proj2
           (api_rate_argument_not_enforced milli_clock "BTCUSDT" "linear"
              "abcdefghij" 1 boot milli_clock_monotone)))))
           eleven_cancels eleven_states).
  - vm_compute. reflexivity.
  - reflexivity.
Defined.

End oms_rate_claims.
